(** * Position aggregation and classification engine of the hedge blotter

    A shallow embedding of the pure logic of the dashboard front end:

    - [lib/chartUtils.ts]: [getExpiryBucket], [aggregateByExpiryBucket],
      [getAssetType], [aggregateByAssetType];
    - [components/AggTable.tsx]: the [spreadAggregates] memo and the cells
      of the market-value and month-to-date columns;
    - [App.tsx]: the [filteredData] memo and the memo of the filter options;
    - [lib/format.ts]: [formatBasisPoints], [formatCurrency], [truncate] and
      the two colour classes;
    - [components/ExpiryLadder.tsx], [components/AssetTypePieChart.tsx] and
      [components/RollupHeader.tsx]: the totals of the headers and the width
      of the bars.

    Modelling conventions.

    - A field typed [T | null | undefined] is an [option T]: the code never
      tells [null] from [undefined] (it tests with [!x], [x != null], [?.]
      and [||] only).
    - A JS [number] is an exact rational ([Q]).  Sums, quotients and
      comparisons are therefore the mathematical ones; the infinities and
      binary64 rounding are outside the model.  Results on numbers are
      stated up to [Qeq] ([==]).  Rows hold no NaN; the one place where the
      code makes one, a sum written on a member of [Object.prototype], is
      kept in the state of that loop, and a figure that is no number reaches
      the formatters as an absent one, which they render alike.
    - A JS string is a [string] of 8-bit characters; [toUpperCase] and
      [toLowerCase] change the 26 ASCII letters and nothing else.
    - [Map] is an insertion-ordered association list (its iteration order is
      observable).  The object literal used as a dictionary in
      [spreadAggregates] is a [gmap] of its own properties, looked up through
      the prototype chain: a key that names a member of [Object.prototype]
      finds that member.
    - Host and library functions the repository only calls ([dayjs],
      [Number.prototype.toFixed], [Number.prototype.toLocaleString]) are
      parameters; a reference implementation of [dayjs] and of [toFixed] is
      given to run the examples. *)

From Stdlib Require Import ZArith QArith Qround Qabs Qminmax String Ascii List
  Lia Lqa DecimalString Permutation Sorted Morphisms.
From stdpp Require Import gmap strings list fin_maps.

(** ** JavaScript strings *)

Module JsString.

Definition is_upper (c : ascii) : bool :=
  let n := N_of_ascii c in ((65 <=? n) && (n <=? 90))%N.

Definition is_lower (c : ascii) : bool :=
  let n := N_of_ascii c in ((97 <=? n) && (n <=? 122))%N.

Definition toUpperChar (c : ascii) : ascii :=
  if is_lower c then ascii_of_N (N_of_ascii c - 32) else c.

Definition toLowerChar (c : ascii) : ascii :=
  if is_upper c then ascii_of_N (N_of_ascii c + 32) else c.

(** [s.toUpperCase()] *)
Fixpoint toUpperCase (s : string) : string :=
  match s with
  | EmptyString => EmptyString
  | String c s' => String (toUpperChar c) (toUpperCase s')
  end.

(** [s.toLowerCase()] *)
Fixpoint toLowerCase (s : string) : string :=
  match s with
  | EmptyString => EmptyString
  | String c s' => String (toLowerChar c) (toLowerCase s')
  end.

(** [s.startsWith(p)] *)
Fixpoint startsWith (s p : string) {struct p} : bool :=
  match p, s with
  | EmptyString, _ => true
  | String _ _, EmptyString => false
  | String a p', String b s' => Ascii.eqb a b && startsWith s' p'
  end.

(** [s.includes(needle)] *)
Fixpoint includes (s needle : string) : bool :=
  startsWith s needle ||
  match s with
  | EmptyString => false
  | String _ s' => includes s' needle
  end.

(** Truthiness of a string value: every string but the empty one. *)
Definition truthy (s : string) : bool := negb (String.eqb s "").

(** Truthiness of [string | null | undefined]. *)
Definition truthy_opt (o : option string) : bool :=
  match o with
  | Some s => truthy s
  | None => false
  end.

(** [o || d] for [o : string | null | undefined]. *)
Definition or_else (o : option string) (d : string) : string :=
  match o with
  | Some s => if truthy s then s else d
  | None => d
  end.

(** [o !== s] for [o : string | null | undefined] and a string [s]. *)
Definition strict_ne (o : option string) (s : string) : bool :=
  match o with
  | Some t => negb (String.eqb t s)
  | None => true
  end.

(** Two characters are the same letter up to case. *)
Definition char_eq_ci (a b : ascii) : Prop := toLowerChar a = toLowerChar b.

(** Two strings are equal up to the case of their letters. *)
Fixpoint eq_ci (s t : string) : Prop :=
  match s, t with
  | EmptyString, EmptyString => True
  | String a s', String b t' => char_eq_ci a b /\ eq_ci s' t'
  | _, _ => False
  end.

(** [needle] occurs in [s] when case is ignored: some contiguous part of
    [s] equals [needle] up to case. *)
Definition includes_ci (s needle : string) : Prop :=
  exists pre mid post, s = pre +:+ mid +:+ post /\ eq_ci mid needle.

End JsString.

(** ** JavaScript numbers *)

Module JsNumber.

(** [isNaN(x)]: a rational is never [NaN]. *)
Definition isNaN (x : Q) : bool := false.

(** [a > b] *)
Definition gt (a b : Q) : bool :=
  match (a ?= b)%Q with
  | Gt => true
  | _ => false
  end.

(** [a === b] on numbers *)
Definition strict_eq (a b : Q) : bool := Qeq_bool a b.

(** [o || 0] for [o : number | null | undefined]: absent and zero values
    both give the literal [0]. *)
Definition or_zero (o : option Q) : Q :=
  match o with
  | Some x => if strict_eq x 0 then 0%Q else x
  | None => 0%Q
  end.

(** Left-to-right sum, the order in which a [forEach] accumulates. *)
Definition sum (l : list Q) : Q := foldl Qplus 0%Q l.

End JsNumber.

(** ** [Map]: insertion-ordered dictionary with string keys *)

Module JsMap.

Definition t (V : Type) : Type := list (string * V).

Definition empty {V} : t V := [].

(** [m.get(k)] *)
Fixpoint get {V} (m : t V) (k : string) : option V :=
  match m with
  | [] => None
  | (k', v) :: m' => if String.eqb k' k then Some v else get m' k
  end.

(** [m.set(k, v)]: an existing key keeps its position, a new key goes
    last. *)
Fixpoint set {V} (m : t V) (k : string) (v : V) : t V :=
  match m with
  | [] => [(k, v)]
  | (k', v') :: m' =>
      if String.eqb k' k then (k, v) :: m' else (k', v') :: set m' k v
  end.

End JsMap.

(** ** [Array.prototype.sort] with a comparator

    The sort is stable; [compareFn a b > 0] places [a] after [b]. *)

Module JsArray.

Fixpoint insert {A} (compareFn : A -> A -> Q) (x : A) (l : list A) : list A :=
  match l with
  | [] => [x]
  | y :: l' =>
      if JsNumber.gt (compareFn x y) 0 then y :: insert compareFn x l'
      else x :: y :: l'
  end.

Fixpoint sort {A} (compareFn : A -> A -> Q) (l : list A) : list A :=
  match l with
  | [] => []
  | x :: l' => insert compareFn x (sort compareFn l')
  end.

End JsArray.

(** ** Position rows ([api/types.ts], [AggRow])

    The record keeps the fields the modelled functions read; the other
    fields of [AggRow] are carried through untouched by every function
    below. *)

Record AggRow := {
  strategy : option string;
  investment_id : option string;
  investment_description : option string;
  manual_flag : bool;
  hedge_label : option string;
  hedge_family : option string;
  mv_ssc_usd : option Q;
  pnl_1d_usd : option Q;
  pnl_mtd_usd : option Q;
  underlying_type : option string;
  underlying_symbol : option string;
  expiry : option string;
  spread_id : option string;
  spread_name : option string;
  is_spread_leg : option bool
}.

(** [x != null] *)
Definition defined {A} (x : option A) : bool :=
  match x with
  | Some _ => true
  | None => false
  end.

(** ** The [dayjs] library, as [chartUtils.ts] uses it *)

Class Dayjs := {
  (** a [dayjs] object *)
  dayjs_t : Type;
  (** [dayjs()]: the current date and time *)
  dayjs_now : dayjs_t;
  (** [dayjs(s)] *)
  dayjs_parse : string -> dayjs_t;
  (** [d.isValid()] *)
  isValid : dayjs_t -> bool;
  (** [a.diff(b, 'day')]: whole days from [b] to [a] *)
  diff_day : dayjs_t -> dayjs_t -> Z
}.

(** A reference clock: calendar dates written [YYYY-MM-DD], taken at
    midnight UTC and counted in milliseconds since 1970-01-01; the
    difference in days is truncated toward zero. *)

Module RefDayjs.

Definition digit (c : ascii) : option Z :=
  let n := N_of_ascii c in
  if ((48 <=? n) && (n <=? 57))%N then Some (Z.of_N (n - 48)) else None.

Definition days_from_civil (y m d : Z) : Z :=
  let y' := if (m <=? 2)%Z then (y - 1)%Z else y in
  let era := (y' / 400)%Z in
  let yoe := (y' - era * 400)%Z in
  let mp := if (2 <? m)%Z then (m - 3)%Z else (m + 9)%Z in
  let doy := ((153 * mp + 2) / 5 + d - 1)%Z in
  let doe := (yoe * 365 + yoe / 4 - yoe / 100 + doy)%Z in
  (era * 146097 + doe - 719468)%Z.

Definition ms_per_day : Z := 86400000.

Definition parse (s : string) : option Z :=
  match s with
  | String y1 (String y2 (String y3 (String y4 (String "-"
      (String m1 (String m2 (String "-"
        (String d1 (String d2 EmptyString))))))))) =>
      y1 ← digit y1; y2 ← digit y2; y3 ← digit y3; y4 ← digit y4;
      m1 ← digit m1; m2 ← digit m2; d1 ← digit d1; d2 ← digit d2;
      let y := (1000 * y1 + 100 * y2 + 10 * y3 + y4)%Z in
      let m := (10 * m1 + m2)%Z in
      let d := (10 * d1 + d2)%Z in
      if ((1 <=? m) && (m <=? 12) && (1 <=? d) && (d <=? 31))%Z
      then Some (days_from_civil y m d * ms_per_day)%Z
      else None
  | _ => None
  end.

Definition diff (a b : option Z) : Z :=
  match a, b with
  | Some x, Some y => ((x - y) ÷ ms_per_day)%Z
  | _, _ => 0%Z
  end.

(** The clock that reads [now] milliseconds since the epoch. *)
Definition at_ms (now : Z) : Dayjs := {|
  dayjs_t := option Z;
  dayjs_now := Some now;
  dayjs_parse := parse;
  isValid := λ d, bool_decide (is_Some d);
  diff_day := diff
|}.

(** The clock that reads the given calendar date at midnight. *)
Definition on (date : string) : Dayjs := at_ms (default 0%Z (parse date)).

End RefDayjs.

(** ** [lib/chartUtils.ts] *)

(** [type ExpiryBucket = '0-3M' | '3-6M' | '6-12M' | '12M+'] *)
Inductive ExpiryBucket := B_0_3M | B_3_6M | B_6_12M | B_12M_plus.

Definition ExpiryBucket_label (b : ExpiryBucket) : string :=
  match b with
  | B_0_3M => "0-3M"
  | B_3_6M => "3-6M"
  | B_6_12M => "6-12M"
  | B_12M_plus => "12M+"
  end.

#[global] Instance ExpiryBucket_eq_dec : EqDecision ExpiryBucket.
Proof. solve_decision. Defined.

#[global] Instance ExpiryBucket_countable : Countable ExpiryBucket.
Proof.
  refine (inj_countable'
    (λ b, match b with
          | B_0_3M => 0%nat | B_3_6M => 1%nat
          | B_6_12M => 2%nat | B_12M_plus => 3%nat
          end)
    (λ n, match n with
          | 0%nat => B_0_3M | 1%nat => B_3_6M
          | 2%nat => B_6_12M | _ => B_12M_plus
          end) _).
  by intros [].
Defined.

Module ExpiryBucketData.
Record t := {
  bucket : ExpiryBucket;
  marketValue : Q;
  count : nat;
  displayOrder : nat
}.
End ExpiryBucketData.

Module AssetTypeData.
Record t := {
  assetType : string;
  marketValue : Q;
  percentage : Q;
  color : string
}.
End AssetTypeData.

(** The running cell [{ mv, count }] kept per bucket. *)
Module BucketCell.
Record t := { mv : Q; count : nat }.
End BucketCell.

Section ChartUtils.

Context `{Dayjs}.

Definition getExpiryBucket (expiryDate : option string) : option ExpiryBucket :=
  match expiryDate with
  | None => None
  | Some expiryDate =>
      if negb (JsString.truthy expiryDate) then None else
      let today := dayjs_now in
      let expiry := dayjs_parse expiryDate in
      if negb (isValid expiry) then None else
      let daysUntilExpiry := diff_day expiry today in
      if (daysUntilExpiry <? 0)%Z then None
      else if (daysUntilExpiry <=? 90)%Z then Some B_0_3M
      else if (daysUntilExpiry <=? 180)%Z then Some B_3_6M
      else if (daysUntilExpiry <=? 365)%Z then Some B_6_12M
      else Some B_12M_plus
  end.

Definition buckets : list ExpiryBucket :=
  [B_0_3M; B_3_6M; B_6_12M; B_12M_plus].

Definition displayOrderMap (b : ExpiryBucket) : nat :=
  match b with
  | B_0_3M => 1
  | B_3_6M => 2
  | B_6_12M => 3
  | B_12M_plus => 4
  end.

(** The body of [positions.forEach]; [bucketMap.get(bucket)!] fails
    ([None]) on a missing key. *)
Definition bucket_step (bucketMap : gmap ExpiryBucket BucketCell.t)
    (position : AggRow) : option (gmap ExpiryBucket BucketCell.t) :=
  match getExpiryBucket (expiry position), mv_ssc_usd position with
  | Some bucket, Some v =>
      current ← bucketMap !! bucket;
      Some (<[bucket := {| BucketCell.mv := (BucketCell.mv current + v)%Q;
                           BucketCell.count := BucketCell.count current + 1 |}]>
              bucketMap)
  | _, _ => Some bucketMap
  end.

Definition aggregateByExpiryBucket (positions : list AggRow)
    : option (list ExpiryBucketData.t) :=
  let bucketMap :=
    foldl (λ m bucket,
             <[bucket := {| BucketCell.mv := 0%Q; BucketCell.count := 0 |}]> m)
          (∅ : gmap ExpiryBucket BucketCell.t) buckets in
  bucketMap ← foldl (λ acc position, m ← acc; bucket_step m position)
                    (Some bucketMap) positions;
  mapM (λ bucket,
          data ← bucketMap !! bucket;
          Some {| ExpiryBucketData.bucket := bucket;
                  ExpiryBucketData.marketValue := BucketCell.mv data;
                  ExpiryBucketData.count := BucketCell.count data;
                  ExpiryBucketData.displayOrder := displayOrderMap bucket |})
       buckets.

End ChartUtils.

Definition getAssetType (position : AggRow) : string :=
  let symbol :=
    JsString.or_else (JsString.toUpperCase <$> underlying_symbol position) "" in
  let type :=
    JsString.or_else (JsString.toUpperCase <$> underlying_type position) "" in
  if JsString.includes symbol "CDX IG" || JsString.includes symbol "CDX.IG"
  then "IG"
  else if JsString.includes symbol "CDX HY" || JsString.includes symbol "CDX.HY"
          || JsString.includes symbol "HYG"
  then "HY"
  else if JsString.includes symbol "SPY" || JsString.includes symbol "SPX"
          || JsString.includes symbol "S&P"
  then "SPY"
  else if JsString.includes type "CREDIT" then
    if JsString.includes symbol "IG" then "IG"
    else if JsString.includes symbol "HY" then "HY"
    else "Credit (Other)"
  else if JsString.includes type "EQUITY" then "Equity (Other)"
  else "Other".

(** The object literal [colorMap], read as [colorMap[assetType]]. *)
Definition colorMap : gmap string string :=
  <["IG" := "#14b8a6"]> (<["HY" := "#0d9488"]> (<["SPY" := "#2dd4bf"]>
  (<["Credit (Other)" := "#5eead4"]> (<["Equity (Other)" := "#99f6e4"]>
  (<["Other" := "#6b7280"]> ∅))))).

(** The body of [positions.forEach] in [aggregateByAssetType], on the pair
    of the two variables it updates. *)
Definition asset_step (st : JsMap.t Q * Q) (position : AggRow) : JsMap.t Q * Q :=
  let '(assetMap, totalMV) := st in
  match mv_ssc_usd position with
  | Some v =>
      let assetType := getAssetType position in
      let currentMV := JsNumber.or_zero (JsMap.get assetMap assetType) in
      (JsMap.set assetMap assetType (currentMV + Qabs v)%Q,
       (totalMV + Qabs v)%Q)
  | None => st
  end.

(** The callback of [assetMap.forEach], which pushes one entry. *)
Definition asset_entry (totalMV : Q) (mv : Q) (assetType : string)
    : AssetTypeData.t :=
  {| AssetTypeData.assetType := assetType;
     AssetTypeData.marketValue := mv;
     AssetTypeData.percentage :=
       if JsNumber.gt totalMV 0 then (mv / totalMV * 100)%Q else 0%Q;
     AssetTypeData.color :=
       JsString.or_else (colorMap !! assetType) "#6b7280" |}.

Definition aggregateByAssetType (positions : list AggRow) : list AssetTypeData.t :=
  let '(assetMap, totalMV) := foldl asset_step (JsMap.empty, 0%Q) positions in
  let result :=
    map (λ '(assetType, mv), asset_entry totalMV mv assetType) assetMap in
  JsArray.sort
    (λ a b, (AssetTypeData.marketValue b - AssetTypeData.marketValue a)%Q)
    result.

(** ** JavaScript objects used as dictionaries *)

Module JsObject.

(** The properties an object literal inherits from [Object.prototype]
    (ECMAScript, Annex B included).  Each holds a function, and [__proto__]
    the prototype object itself: all of them are truthy, and none holds a
    number in a field of an aggregate. *)
Definition prototype_members : list string :=
  ["constructor"; "hasOwnProperty"; "isPrototypeOf"; "propertyIsEnumerable";
   "toLocaleString"; "toString"; "valueOf"; "__proto__";
   "__defineGetter__"; "__defineSetter__";
   "__lookupGetter__"; "__lookupSetter__"].

Definition inherited (key : string) : bool :=
  existsb (String.eqb key) prototype_members.

(** What [o[key]] finds on an object literal with the own properties [o]:
    an own property first, then a member of the prototype, else
    [undefined]. *)
Inductive found (V : Type) :=
  | Own (v : V)
  | Inherited
  | Undefined.

Arguments Own {V} v.
Arguments Inherited {V}.
Arguments Undefined {V}.

Definition get {V} (o : gmap string V) (key : string) : found V :=
  match o !! key with
  | Some v => Own v
  | None => if inherited key then Inherited else Undefined
  end.

(** The number read off a field of what was found, for the formatters,
    which treat [undefined] and NaN alike: an own record holds the number; a
    member of the prototype holds none (the field is [undefined], or NaN
    once a sum was written on it). *)
Definition number_of {V} (field : V -> Q) (v : found V) : option Q :=
  match v with
  | Own v => Some (field v)
  | Inherited | Undefined => None
  end.

End JsObject.

(** ** [components/AggTable.tsx]: spread aggregates *)

Module SpreadAggregate.
Record t := {
  mv_total : Q;
  pnl_1d_total : Q;
  pnl_mtd_total : Q;
  spread_name : string
}.
End SpreadAggregate.

(** The state the loop of the memo works on: the own properties of the
    object literal [aggregates], and the members of [Object.prototype] on
    which the loop has written its three totals (as NaN), one entry per row
    that did so, in the order of the rows. *)
Module Aggregates.
Record t := {
  own : gmap string SpreadAggregate.t;
  nan_on : list string
}.

(** [{}] *)
Definition empty : t := {| own := ∅; nan_on := [] |}.
End Aggregates.

(** The body of [data.forEach] in the [spreadAggregates] memo.  When
    [row.spread_id] names a member of [Object.prototype],
    [aggregates[row.spread_id]] is that member: it is truthy, so no
    aggregate is created, and each [+=] adds to a field that holds no
    number and writes the NaN on the member, leaving the own properties as
    they are. *)
Definition spread_step (aggregates : Aggregates.t) (row : AggRow)
    : Aggregates.t :=
  match spread_id row with
  | Some id =>
      if JsString.truthy id && default false (is_spread_leg row) then
        match JsObject.get (Aggregates.own aggregates) id with
        | JsObject.Inherited =>
            {| Aggregates.own := Aggregates.own aggregates;
               Aggregates.nan_on := Aggregates.nan_on aggregates ++ [id] |}
        | found =>
            let own :=
              match found with
              | JsObject.Undefined =>
                  <[id := {| SpreadAggregate.mv_total := 0%Q;
                             SpreadAggregate.pnl_1d_total := 0%Q;
                             SpreadAggregate.pnl_mtd_total := 0%Q;
                             SpreadAggregate.spread_name :=
                               JsString.or_else (spread_name row) "Spread" |}]>
                    (Aggregates.own aggregates)
              | _ => Aggregates.own aggregates
              end in
            let own :=
              alter (λ a, {| SpreadAggregate.mv_total :=
                               (SpreadAggregate.mv_total a
                                + JsNumber.or_zero (mv_ssc_usd row))%Q;
                             SpreadAggregate.pnl_1d_total :=
                               SpreadAggregate.pnl_1d_total a;
                             SpreadAggregate.pnl_mtd_total :=
                               SpreadAggregate.pnl_mtd_total a;
                             SpreadAggregate.spread_name :=
                               SpreadAggregate.spread_name a |})
                    id own in
            let own :=
              alter (λ a, {| SpreadAggregate.mv_total :=
                               SpreadAggregate.mv_total a;
                             SpreadAggregate.pnl_1d_total :=
                               (SpreadAggregate.pnl_1d_total a
                                + JsNumber.or_zero (pnl_1d_usd row))%Q;
                             SpreadAggregate.pnl_mtd_total :=
                               SpreadAggregate.pnl_mtd_total a;
                             SpreadAggregate.spread_name :=
                               SpreadAggregate.spread_name a |})
                    id own in
            let own :=
              alter (λ a, {| SpreadAggregate.mv_total :=
                               SpreadAggregate.mv_total a;
                             SpreadAggregate.pnl_1d_total :=
                               SpreadAggregate.pnl_1d_total a;
                             SpreadAggregate.pnl_mtd_total :=
                               (SpreadAggregate.pnl_mtd_total a
                                + JsNumber.or_zero (pnl_mtd_usd row))%Q;
                             SpreadAggregate.spread_name :=
                               SpreadAggregate.spread_name a |})
                    id own in
            {| Aggregates.own := own;
               Aggregates.nan_on := Aggregates.nan_on aggregates |}
        end
      else aggregates
  | None => aggregates
  end.

(** The loop over the rows, from the empty object literal. *)
Definition spread_loop (data : list AggRow) : Aggregates.t :=
  foldl spread_step Aggregates.empty data.

(** The value of the memo: the object [aggregates], given by its own
    properties. *)
Definition spreadAggregates (data : list AggRow) : gmap string SpreadAggregate.t :=
  Aggregates.own (spread_loop data).

(** The members of [Object.prototype] the memo has written NaN totals
    on. *)
Definition prototype_writes (data : list AggRow) : list string :=
  Aggregates.nan_on (spread_loop data).

(** ** [App.tsx]: the table filter *)

(** [field?.toLowerCase().includes(query) || false] *)
Definition matches (field : option string) (query : string) : bool :=
  match field with
  | Some text => JsString.includes (JsString.toLowerCase text) query
  | None => false
  end.

(** The callback of [aggData.filter]. *)
Definition filterRow (selectedFamily selectedStrategy searchQuery : string)
    (row : AggRow) : bool :=
  if JsString.truthy selectedFamily
     && JsString.strict_ne (hedge_family row) selectedFamily
  then false
  else if JsString.truthy selectedStrategy
          && JsString.strict_ne (strategy row) selectedStrategy
  then false
  else if JsString.truthy searchQuery then
    let query := JsString.toLowerCase searchQuery in
    let matchesDescription := matches (investment_description row) query in
    let matchesLabel := matches (hedge_label row) query in
    let matchesId := matches (investment_id row) query in
    if negb matchesDescription && negb matchesLabel && negb matchesId
    then false
    else true
  else true.

Definition filteredData (aggData : list AggRow)
    (selectedFamily selectedStrategy searchQuery : string) : list AggRow :=
  List.filter (filterRow selectedFamily selectedStrategy searchQuery) aggData.

(** ** [lib/format.ts]: basis points *)

Section Format.

(** [x.toFixed(digits)], supplied by the host. *)
Variable toFixed : Q -> nat -> string.

(** The quotient the function renders, [(value / portfolioTotal) * 10000]. *)
Definition bps_of (value portfolioTotal : Q) : Q :=
  (value / portfolioTotal * 10000)%Q.

(** [decimals] is optional and defaults to 1. *)
Definition formatBasisPoints (value : option Q) (portfolioTotal : Q)
    (decimals : option nat) : string :=
  let decimals := default 1 decimals in
  match value with
  | None => "-"
  | Some value =>
      if JsNumber.isNaN value || JsNumber.strict_eq portfolioTotal 0
      then "-"
      else
        let bps := bps_of value portfolioTotal in
        toFixed bps decimals +:+ " bps"
  end.

End Format.

(** A reference [toFixed] on rationals, following the steps of
    [Number.prototype.toFixed] for a magnitude below [10^21] and at most 100
    digits: round the scaled magnitude to the nearest integer (ties upward),
    pad with zeros to [digits + 1] places, and put the point before the last
    [digits] places. *)

Module RefNumber.

Definition decimal (n : Z) : string :=
  NilZero.string_of_uint (N.to_uint (Z.to_N n)).

Fixpoint zeros (k : nat) : string :=
  match k with
  | O => ""
  | S k' => String "0" (zeros k')
  end.

Definition toFixed (x : Q) (f : nat) : string :=
  let s := if JsNumber.gt 0 x then "-" else "" in
  let x := Qabs x in
  let n := Qfloor (x * inject_Z (10 ^ Z.of_nat f) + (1 # 2))%Q in
  let m := decimal n in
  let m :=
    match f with
    | O => m
    | _ =>
        let k := String.length m in
        let m := if (k <=? f)%nat then zeros (f + 1 - k) +:+ m else m in
        let k := String.length m in
        substring 0 (k - f) m +:+ "." +:+ substring (k - f) f m
    end in
  s +:+ m.

End RefNumber.

(** ** Notions the statements below are phrased with *)

(** Signed market values of the rows that have one, in input order. *)
Definition market_values (positions : list AggRow) : list Q :=
  omap mv_ssc_usd positions.

Section LadderNotions.

Context `{Dayjs}.

(** The row has an expiry that parses and does not lie in the past. *)
Definition expiry_live (row : AggRow) : bool :=
  match expiry row with
  | Some s =>
      JsString.truthy s && isValid (dayjs_parse s)
      && (0 <=? diff_day (dayjs_parse s) dayjs_now)%Z
  | None => false
  end.

(** The row has a market value and a live expiry. *)
Definition on_ladder (row : AggRow) : bool :=
  defined (mv_ssc_usd row) && expiry_live row.

(** The rows that fall in bucket [b], in input order. *)
Definition rows_in (b : ExpiryBucket) (positions : list AggRow) : list AggRow :=
  List.filter
    (λ row, defined (mv_ssc_usd row)
            && bool_decide (getExpiryBucket (expiry row) = Some b))
    positions.

(** The entry the ladder shows for bucket [b]: the sum of the market
    values and the number of the rows that fall in it. *)
Definition ladder_entry (positions : list AggRow) (b : ExpiryBucket)
    : ExpiryBucketData.t :=
  {| ExpiryBucketData.bucket := b;
     ExpiryBucketData.marketValue :=
       JsNumber.sum (market_values (rows_in b positions));
     ExpiryBucketData.count := length (rows_in b positions);
     ExpiryBucketData.displayOrder := displayOrderMap b |}.

(** The cell of bucket [b] after the loop has gone through [positions],
    starting from the cell [c]. *)
Definition cell_after (b : ExpiryBucket) (positions : list AggRow)
    (c : BucketCell.t) : BucketCell.t :=
  {| BucketCell.mv :=
       foldl Qplus (BucketCell.mv c) (market_values (rows_in b positions));
     BucketCell.count := BucketCell.count c + length (rows_in b positions) |}.

(** The bucket of a number of days until expiry, by the inclusive upper
    bounds 90, 180 and 365; none for a negative number. *)
Definition bucket_of_days (d : Z) : option ExpiryBucket :=
  if decide (d < 0)%Z then None
  else if decide (d <= 90)%Z then Some B_0_3M
  else if decide (d <= 180)%Z then Some B_3_6M
  else if decide (d <= 365)%Z then Some B_6_12M
  else Some B_12M_plus.

End LadderNotions.

(** The rows of category [c] that have a market value, in input order. *)
Definition rows_of_type (c : string) (positions : list AggRow) : list AggRow :=
  List.filter
    (λ row, defined (mv_ssc_usd row)
            && String.eqb (getAssetType row) c)
    positions.

(** Gross exposure: the sum of the absolute market values. *)
Definition gross (positions : list AggRow) : Q :=
  JsNumber.sum (map Qabs (market_values positions)).

(** A row takes part in spread consolidation: it has a non-empty
    [spread_id] and [is_spread_leg] is true. *)
Definition participates (row : AggRow) : bool :=
  JsString.truthy_opt (spread_id row) && default false (is_spread_leg row).

(** The same with "defined" read as "present": any [spread_id], the empty
    string included. *)
Definition participates_if_defined (row : AggRow) : bool :=
  defined (spread_id row) && default false (is_spread_leg row).

(** The participating rows of spread [id], in input order. *)
Definition legs_of (id : string) (data : list AggRow) : list AggRow :=
  List.filter
    (λ row, participates row && bool_decide (spread_id row = Some id))
    data.

(** The rows with a defined [spread_id] equal to [id] that are marked as
    legs, in input order. *)
Definition legs_if_defined (id : string) (data : list AggRow) : list AggRow :=
  List.filter
    (λ row, participates_if_defined row
            && bool_decide (spread_id row = Some id))
    data.

(** The sum of a metric over rows, an undefined metric counting as 0. *)
Definition total_of (metric : AggRow -> option Q) (rows : list AggRow) : Q :=
  JsNumber.sum (map (λ row, default 0%Q (metric row)) rows).

(** The filter as the interface describes it. *)
Definition admits (family strat query : string) (row : AggRow) : Prop :=
  (family = "" \/ hedge_family row = Some family) /\
  (strat = "" \/ strategy row = Some strat) /\
  (query = "" \/
   exists text,
     (investment_description row = Some text \/ hedge_label row = Some text
      \/ investment_id row = Some text)
     /\ JsString.includes_ci text query).

(** Markers of the asset-type rule chain. *)
Definition has_any (text : string) (markers : list string) : Prop :=
  exists m, In m markers /\ JsString.includes_ci text m.

Definition ig_markers : list string := ["CDX IG"; "CDX.IG"].
Definition hy_markers : list string := ["CDX HY"; "CDX.HY"; "HYG"].
Definition equity_markers : list string := ["SPY"; "SPX"; "S&P"].

(** Rows with the given fields and nothing else, for the examples. *)
Definition leg (id : string) (name : option string) (mv : Q) : AggRow := {|
  strategy := None; investment_id := None; investment_description := None;
  manual_flag := false; hedge_label := None; hedge_family := None;
  mv_ssc_usd := Some mv; pnl_1d_usd := None; pnl_mtd_usd := None;
  underlying_type := None; underlying_symbol := None; expiry := None;
  spread_id := Some id; spread_name := name; is_spread_leg := Some true
|}.

Definition holding (symbol type : option string) (mv : Q) : AggRow := {|
  strategy := None; investment_id := None; investment_description := None;
  manual_flag := false; hedge_label := None; hedge_family := None;
  mv_ssc_usd := Some mv; pnl_1d_usd := None; pnl_mtd_usd := None;
  underlying_type := type; underlying_symbol := symbol; expiry := None;
  spread_id := None; spread_name := None; is_spread_leg := None
|}.

Definition expiring (date : option string) (mv : option Q) : AggRow := {|
  strategy := None; investment_id := None; investment_description := None;
  manual_flag := false; hedge_label := None; hedge_family := None;
  mv_ssc_usd := mv; pnl_1d_usd := None; pnl_mtd_usd := None;
  underlying_type := None; underlying_symbol := None; expiry := date;
  spread_id := None; spread_name := None; is_spread_leg := None
|}.

Definition described (family strat descr label id : option string) : AggRow := {|
  strategy := strat; investment_id := id; investment_description := descr;
  manual_flag := false; hedge_label := label; hedge_family := family;
  mv_ssc_usd := None; pnl_1d_usd := None; pnl_mtd_usd := None;
  underlying_type := None; underlying_symbol := None; expiry := None;
  spread_id := None; spread_name := None; is_spread_leg := None
|}.

(** The aggregate of a spread after one more of its legs: a fresh aggregate
    takes the leg's name (or "Spread"), then the three metrics are added. *)
Definition absorb (row : AggRow) (o : option SpreadAggregate.t)
    : option SpreadAggregate.t :=
  let a :=
    match o with
    | Some a => a
    | None =>
        {| SpreadAggregate.mv_total := 0%Q;
           SpreadAggregate.pnl_1d_total := 0%Q;
           SpreadAggregate.pnl_mtd_total := 0%Q;
           SpreadAggregate.spread_name :=
             JsString.or_else (spread_name row) "Spread" |}
    end in
  Some {| SpreadAggregate.mv_total :=
            (SpreadAggregate.mv_total a
             + JsNumber.or_zero (mv_ssc_usd row))%Q;
          SpreadAggregate.pnl_1d_total :=
            (SpreadAggregate.pnl_1d_total a
             + JsNumber.or_zero (pnl_1d_usd row))%Q;
          SpreadAggregate.pnl_mtd_total :=
            (SpreadAggregate.pnl_mtd_total a
             + JsNumber.or_zero (pnl_mtd_usd row))%Q;
          SpreadAggregate.spread_name := SpreadAggregate.spread_name a |}.

(** The name a leg gives to its spread: its own non-empty [spread_name],
    otherwise the constant "Spread". *)
Definition name_given_by (row : AggRow) : string :=
  match spread_name row with
  | Some name => if decide (name = "") then "Spread" else name
  | None => "Spread"
  end.

(** What the loop of [aggregateByAssetType] has built after the positions:
    the gross total, and one key per category met, holding the gross
    exposure of the rows of that category. *)
Definition breakdown_ok (positions : list AggRow) (st : JsMap.t Q * Q) : Prop :=
  st.2 = gross positions /\
  NoDup (map fst st.1) /\
  (forall c, JsMap.get st.1 c = None -> rows_of_type c positions = []) /\
  (forall c v, JsMap.get st.1 c = Some v ->
     rows_of_type c positions <> [] /\
     (v == gross (rows_of_type c positions))%Q) /\
  (JsNumber.sum (map snd st.1) == st.2)%Q.

(** ** [lib/format.ts]: currency, colour classes and truncation *)

Section Formatters.

(** [x.toLocaleString('en-US', { minimumFractionDigits: d,
    maximumFractionDigits: d })], supplied by the host. *)
Variable toLocaleString : Q -> nat -> string.

(** [decimals] is optional and defaults to 2. *)
Definition formatCurrency (value : option Q) (decimals : option nat) : string :=
  let decimals := default 2 decimals in
  match value with
  | None => "-"
  | Some value =>
      if JsNumber.isNaN value then "-" else toLocaleString value decimals
  end.

End Formatters.

Definition getDV01ColorClass (value : option Q) : string :=
  match value with
  | None => ""
  | Some value =>
      if JsNumber.isNaN value then ""
      else if JsNumber.gt 0 value then "text-red-600" else "text-green-600"
  end.

Definition getPnLColorClass (value : option Q) : string :=
  match value with
  | None => ""
  | Some value =>
      if JsNumber.isNaN value then ""
      else if JsNumber.gt value 0 then "text-green-600"
      else if JsNumber.gt 0 value then "text-red-600"
      else ""
  end.

(** [text.substring(0, n)]: a negative [n] counts as 0, one beyond the end
    as the length. *)
Definition substring_to (text : string) (n : Z) : string :=
  substring 0 (Z.to_nat n) text.

(** [maxLen] is optional and defaults to 50. *)
Definition truncate (text : option string) (maxLen : option Z) : string :=
  let maxLen := default 50%Z maxLen in
  match text with
  | None => "-"
  | Some text =>
      if negb (JsString.truthy text) then "-"
      else if (Z.of_nat (String.length text) <=? maxLen)%Z then text
      else substring_to text (maxLen - 3) +:+ "..."
  end.

(** ** [App.tsx]: the filter options *)

(** [Set<string>]: insertion-ordered, without duplicates. *)
Module JsSet.

Definition t : Type := list string.

Definition empty : t := [].

(** [s.add(x)] *)
Definition add (s : t) (x : string) : t :=
  if bool_decide (x ∈ s) then s else s ++ [x].

(** [Array.from(s)] *)
Definition to_array (s : t) : list string := s.

End JsSet.

(** The comparison [Array.prototype.sort] uses when it is given none:
    strings in the order of their code units. *)
Definition default_compare (a b : string) : Q :=
  match String.compare a b with
  | Lt => (-1)%Q
  | Eq => 0%Q
  | Gt => 1%Q
  end.

(** The body of [aggData.forEach] in the options memo, on the pair of the
    two sets it fills. *)
Definition options_step (st : JsSet.t * JsSet.t) (row : AggRow)
    : JsSet.t * JsSet.t :=
  let '(familySet, strategySet) := st in
  let familySet :=
    match hedge_family row with
    | Some f => if JsString.truthy f then JsSet.add familySet f else familySet
    | None => familySet
    end in
  let strategySet :=
    match strategy row with
    | Some s => if JsString.truthy s then JsSet.add strategySet s else strategySet
    | None => strategySet
    end in
  (familySet, strategySet).

(** The memo [{ families, strategies }]. *)
Definition filterOptions (aggData : list AggRow) : list string * list string :=
  let '(familySet, strategySet) :=
    foldl options_step (JsSet.empty, JsSet.empty) aggData in
  (JsArray.sort default_compare (JsSet.to_array familySet),
   JsArray.sort default_compare (JsSet.to_array strategySet)).

Definition families (aggData : list AggRow) : list string :=
  (filterOptions aggData).1.

Definition strategies (aggData : list AggRow) : list string :=
  (filterOptions aggData).2.

(** ** [components/ExpiryLadder.tsx] and [components/AssetTypePieChart.tsx]:
    the totals in the headers *)

(** [bucketData.reduce((sum, bucket) => sum + bucket.marketValue, 0)] *)
Definition ladder_totalMV (bucketData : list ExpiryBucketData.t) : Q :=
  foldl (λ sum bucket, (sum + ExpiryBucketData.marketValue bucket)%Q) 0%Q
        bucketData.

(** [bucketData.reduce((sum, bucket) => sum + bucket.count, 0)] *)
Definition ladder_totalCount (bucketData : list ExpiryBucketData.t) : nat :=
  foldl (λ sum bucket, sum + ExpiryBucketData.count bucket) 0 bucketData.

(** [assetData.reduce((sum, item) => sum + item.marketValue, 0)] *)
Definition pie_totalMV (assetData : list AssetTypeData.t) : Q :=
  foldl (λ sum item, (sum + AssetTypeData.marketValue item)%Q) 0%Q assetData.

(** ** [components/RollupHeader.tsx]: the bars by hedge family *)

Module FamilyBucket.
Record t := {
  hedge_family : string;
  mv_ssc_usd : Q;
  pnl_1d_usd : Q;
  pnl_mtd_usd : Q;
  position_count : nat
}.
End FamilyBucket.

(** [Math.max(x, ...rest)] *)
Definition Math_max (x : Q) (rest : list Q) : Q := foldl Qmax x rest.

(** [Math.max(...by_family.map((f) => Math.abs(f.mv_ssc_usd)), 1)] *)
Definition maxAbsMV (by_family : list FamilyBucket.t) : Q :=
  match map (λ f, Qabs (FamilyBucket.mv_ssc_usd f)) by_family ++ [1%Q] with
  | x :: rest => Math_max x rest
  | [] => 0%Q
  end.

(** [Math.abs(family.mv_ssc_usd) / maxAbsMV * 100] *)
Definition barWidth (by_family : list FamilyBucket.t) (family : FamilyBucket.t)
    : Q :=
  (Qabs (FamilyBucket.mv_ssc_usd family) / maxAbsMV by_family * 100)%Q.

(** ** [components/AggTable.tsx]: the cells of a spread leg *)

(** What a cell renders: one text with its class, or the leg's own figure
    above the figure of its spread, each with its class. *)
Inductive cell :=
  | Plain (className text : string)
  | Stacked (className text aggClassName aggText : string).

Section Cells.

Variable toLocaleString : Q -> nat -> string.
Variable toFixed : Q -> nat -> string.

(** [showBasisPoints && portfolioTotalMV > 0 ? formatBasisPoints(value,
    portfolioTotalMV) : formatCurrency(value)] *)
Definition show_value (showBasisPoints : bool) (portfolioTotalMV : Q)
    (value : option Q) : string :=
  if showBasisPoints && JsNumber.gt portfolioTotalMV 0
  then formatBasisPoints toFixed value portfolioTotalMV None
  else formatCurrency toLocaleString value None.

(** The cell of the column [mv_ssc_usd].  [spreadAggregates[row.spread_id]]
    goes through the prototype chain; reading [agg.mv_total] off
    [undefined] fails ([None]). *)
Definition mvCell (spreadAggregates : gmap string SpreadAggregate.t)
    (showBasisPoints : bool) (portfolioTotalMV : Q) (row : AggRow)
    : option cell :=
  let value := mv_ssc_usd row in
  match spread_id row with
  | Some id =>
      if default false (is_spread_leg row) && JsString.truthy id then
        let agg := JsObject.get spreadAggregates id in
        let individualMV := show_value showBasisPoints portfolioTotalMV value in
        match agg with
        | JsObject.Undefined => None
        | _ =>
            let aggMV :=
              show_value showBasisPoints portfolioTotalMV
                (JsObject.number_of SpreadAggregate.mv_total agg) in
            Some (Stacked "text-xs text-gray-500" individualMV "font-bold" aggMV)
        end
      else Some (Plain "" (show_value showBasisPoints portfolioTotalMV value))
  | None => Some (Plain "" (show_value showBasisPoints portfolioTotalMV value))
  end.

(** The cell of the column [pnl_mtd_usd], coloured by the sign of each
    figure. *)
Definition pnlMtdCell (spreadAggregates : gmap string SpreadAggregate.t)
    (showBasisPoints : bool) (portfolioTotalMV : Q) (row : AggRow)
    : option cell :=
  let value := pnl_mtd_usd row in
  match spread_id row with
  | Some id =>
      if default false (is_spread_leg row) && JsString.truthy id then
        let agg := JsObject.get spreadAggregates id in
        let individualPnL := show_value showBasisPoints portfolioTotalMV value in
        match agg with
        | JsObject.Undefined => None
        | _ =>
            let pnl_mtd_total :=
              JsObject.number_of SpreadAggregate.pnl_mtd_total agg in
            let aggPnL :=
              show_value showBasisPoints portfolioTotalMV pnl_mtd_total in
            Some (Stacked
                    ("text-xs " +:+ getPnLColorClass value) individualPnL
                    ("font-bold " +:+ getPnLColorClass pnl_mtd_total)
                    aggPnL)
        end
      else Some (Plain (getPnLColorClass value)
                       (show_value showBasisPoints portfolioTotalMV value))
  | None => Some (Plain (getPnLColorClass value)
                        (show_value showBasisPoints portfolioTotalMV value))
  end.

End Cells.

(** ** Further notions for the statements *)

(** The entries are in descending order of market value. *)
Definition by_value_desc (a b : AssetTypeData.t) : Prop :=
  (AssetTypeData.marketValue b <= AssetTypeData.marketValue a)%Q.

(** The sum of the market-value totals of all spreads. *)
Definition all_spreads_mv (aggregates : gmap string SpreadAggregate.t) : Q :=
  JsNumber.sum (map (λ kv, SpreadAggregate.mv_total kv.2) (map_to_list aggregates)).

(** A row whose [spread_id] names a member of [Object.prototype]. *)
Definition shadowed (row : AggRow) : bool :=
  match spread_id row with
  | Some id => JsObject.inherited id
  | None => false
  end.

(** A row that is added to an aggregate: it takes part in spread
    consolidation and its [spread_id] is a key of its own. *)
Definition consolidated (row : AggRow) : bool :=
  participates row && negb (shadowed row).

(** The rows that are added to an aggregate. *)
Definition spread_legs (data : list AggRow) : list AggRow :=
  List.filter consolidated data.

(** The order of the ladder. *)
Definition bucket_le (a b : ExpiryBucket) : Prop :=
  displayOrderMap a <= displayOrderMap b.

(** The same text up to case, an absent field counting as empty. *)
Definition same_text_ci (a b : option string) : Prop :=
  JsString.eq_ci (default "" a) (default "" b).


(** The distinct non-empty values of a field, in the order of their first
    appearance: what the options memo collects in each of its sets. *)
Definition collect (field : AggRow -> option string) (aggData : list AggRow)
    : JsSet.t :=
  foldl (λ set row,
           match field row with
           | Some x => if JsString.truthy x then JsSet.add set x else set
           | None => set
           end)
        JsSet.empty aggData.

(** * Properties *)

(* naive_solver clears hypotheses it has used up *)
Set Warnings "-clear-no-such-hyp".

Arguments JsNumber.sum : simpl never.

(** ** Facts on strings *)

Section StringFacts.

Import JsString.

Lemma append_cons (x : ascii) (a b : string) :
  String x a +:+ b = String x (a +:+ b).
Proof. reflexivity. Qed.

Lemma append_nil (b : string) : "" +:+ b = b.
Proof. reflexivity. Qed.

Ltac push_append :=
  repeat first [rewrite append_cons | rewrite append_nil]; simpl.

Ltac push_append_in H :=
  repeat first [rewrite append_cons in H | rewrite append_nil in H];
  simpl in H.

Lemma startsWith_spec (s p : string) :
  startsWith s p = true <-> exists post, s = p +:+ post.
Proof.
  revert s. induction p as [|a p IH]; intros s; simpl.
  - split; [intros _; by exists s | done].
  - destruct s as [|b s].
    + split; [done | intros [post Hpost]; discriminate].
    + rewrite andb_true_iff, Ascii.eqb_eq, IH. split.
      * intros [-> [post ->]]. by exists post.
      * intros [post Hpost]. push_append_in Hpost.
        injection Hpost as -> ->. eauto.
Qed.

Lemma includes_spec (s needle : string) :
  includes s needle = true <-> exists pre post, s = pre +:+ needle +:+ post.
Proof.
  induction s as [|c s IH]; simpl.
  - rewrite orb_false_r, startsWith_spec. split.
    + intros [post Hpost]. by exists "", post.
    + intros [pre [post Hs]]. destruct pre; [by exists post | discriminate].
  - rewrite orb_true_iff, startsWith_spec, IH. split.
    + intros [[post Hpost] | [pre [post Hs]]].
      * by exists "", post.
      * exists (String c pre), post. by rewrite Hs.
    + intros [[|x pre] [post Hs]]; push_append_in Hs.
      * left. by exists post.
      * right. injection Hs as -> ->. by exists pre, post.
Qed.

Lemma toLowerCase_append (a b : string) :
  toLowerCase (a +:+ b) = toLowerCase a +:+ toLowerCase b.
Proof. induction a as [|x a IH]; push_append; [done | by rewrite IH]. Qed.

Lemma toUpperCase_append (a b : string) :
  toUpperCase (a +:+ b) = toUpperCase a +:+ toUpperCase b.
Proof. induction a as [|x a IH]; push_append; [done | by rewrite IH]. Qed.

Lemma eq_ci_lower (s t : string) :
  eq_ci s t <-> toLowerCase s = toLowerCase t.
Proof.
  revert t. induction s as [|a s IH]; intros [|b t]; simpl; try done.
  rewrite IH. unfold char_eq_ci. split.
  - by intros [-> ->].
  - intros Heq. by injection Heq.
Qed.

(** A split of the lower-cased string comes from a split of the string. *)
Lemma toLowerCase_split (s a b : string) :
  toLowerCase s = a +:+ b ->
  exists a' b', s = a' +:+ b' /\ toLowerCase a' = a /\ toLowerCase b' = b.
Proof.
  revert s. induction a as [|x a IH]; intros s Hs; push_append_in Hs.
  - by exists "", s.
  - destruct s as [|c s]; [discriminate |]. simpl in Hs.
    injection Hs as Hc Hs. destruct (IH _ Hs) as (a' & b' & -> & Ha & Hb).
    exists (String c a'), b'. simpl. by rewrite Hc, Ha.
Qed.

Lemma toUpperCase_split (s a b : string) :
  toUpperCase s = a +:+ b ->
  exists a' b', s = a' +:+ b' /\ toUpperCase a' = a /\ toUpperCase b' = b.
Proof.
  revert s. induction a as [|x a IH]; intros s Hs; push_append_in Hs.
  - by exists "", s.
  - destruct s as [|c s]; [discriminate |]. simpl in Hs.
    injection Hs as Hc Hs. destruct (IH _ Hs) as (a' & b' & -> & Ha & Hb).
    exists (String c a'), b'. simpl. by rewrite Hc, Ha.
Qed.

Lemma upper_of_lower (c : ascii) : toUpperChar (toLowerChar c) = toUpperChar c.
Proof. by destruct c as [[] [] [] [] [] [] [] []]. Qed.

Lemma lower_of_upper (c : ascii) : toLowerChar (toUpperChar c) = toLowerChar c.
Proof. by destruct c as [[] [] [] [] [] [] [] []]. Qed.

Lemma toUpperCase_toLowerCase (s : string) :
  toUpperCase (toLowerCase s) = toUpperCase s.
Proof.
  induction s as [|c s IH]; simpl; [done | by rewrite upper_of_lower, IH].
Qed.

Lemma toLowerCase_toUpperCase (s : string) :
  toLowerCase (toUpperCase s) = toLowerCase s.
Proof.
  induction s as [|c s IH]; simpl; [done | by rewrite lower_of_upper, IH].
Qed.

(** Ignoring case by lower-casing or by upper-casing is the same. *)
Lemma lower_eq_iff_upper_eq (s t : string) :
  toLowerCase s = toLowerCase t <-> toUpperCase s = toUpperCase t.
Proof.
  split; intros Heq.
  - by rewrite <- (toUpperCase_toLowerCase s), Heq, toUpperCase_toLowerCase.
  - by rewrite <- (toLowerCase_toUpperCase s), Heq, toLowerCase_toUpperCase.
Qed.

(** What [App.tsx] computes: lower-case both sides, then [includes]. *)
Lemma includes_lower_ci (s needle : string) :
  includes (toLowerCase s) (toLowerCase needle) = true <-> includes_ci s needle.
Proof.
  rewrite includes_spec. unfold includes_ci. split.
  - intros (pre & post & Hs).
    apply toLowerCase_split in Hs as (pre' & rest & -> & _ & Hrest).
    apply toLowerCase_split in Hrest as (mid & post' & -> & Hmid & _).
    exists pre', mid, post'. by rewrite eq_ci_lower.
  - intros (pre & mid & post & -> & Hmid). apply eq_ci_lower in Hmid.
    exists (toLowerCase pre), (toLowerCase post).
    by rewrite !toLowerCase_append, Hmid.
Qed.

(** What [chartUtils.ts] computes: upper-case the text and look for a marker
    written in capitals. *)
Lemma includes_upper_ci (s marker : string) :
  toUpperCase marker = marker ->
  (includes (toUpperCase s) marker = true <-> includes_ci s marker).
Proof.
  intros Hcap. rewrite includes_spec. unfold includes_ci. split.
  - intros (pre & post & Hs).
    apply toUpperCase_split in Hs as (pre' & rest & -> & _ & Hrest).
    apply toUpperCase_split in Hrest as (mid & post' & -> & Hmid & _).
    exists pre', mid, post'. split; [done |].
    apply eq_ci_lower, lower_eq_iff_upper_eq. by rewrite Hmid, Hcap.
  - intros (pre & mid & post & -> & Hmid).
    apply eq_ci_lower, lower_eq_iff_upper_eq in Hmid.
    exists (toUpperCase pre), (toUpperCase post).
    by rewrite !toUpperCase_append, Hmid, Hcap.
Qed.

Lemma truthy_true (s : string) : truthy s = true <-> s <> "".
Proof.
  unfold truthy. rewrite negb_true_iff. apply String.eqb_neq.
Qed.

Lemma truthy_false (s : string) : truthy s = false <-> s = "".
Proof.
  unfold truthy. rewrite negb_false_iff. apply String.eqb_eq.
Qed.

End StringFacts.

(** ** The expiry ladder *)

Section Ladder.

Context `{Dayjs}.

Lemma bucket_of_days_code (d : Z) :
  (if (d <? 0)%Z then None
   else if (d <=? 90)%Z then Some B_0_3M
   else if (d <=? 180)%Z then Some B_3_6M
   else if (d <=? 365)%Z then Some B_6_12M
   else Some B_12M_plus) = bucket_of_days d.
Proof.
  unfold bucket_of_days.
  repeat case_decide;
    repeat match goal with
    | |- context [(?a <? ?b)%Z] => destruct (Z.ltb_spec a b); try lia
    | |- context [(?a <=? ?b)%Z] => destruct (Z.leb_spec a b); try lia
    end; reflexivity.
Qed.

Lemma getExpiryBucket_days (s : string) :
  s <> "" -> isValid (dayjs_parse s) = true ->
  getExpiryBucket (Some s) = bucket_of_days (diff_day (dayjs_parse s) dayjs_now).
Proof.
  intros Hs Hvalid. unfold getExpiryBucket.
  apply truthy_true in Hs. rewrite Hs, Hvalid. simpl.
  apply bucket_of_days_code.
Qed.

Lemma getExpiryBucket_none (s : string) :
  s = "" \/ isValid (dayjs_parse s) = false -> getExpiryBucket (Some s) = None.
Proof.
  intros [-> | Hinvalid]; unfold getExpiryBucket; [done |].
  rewrite Hinvalid. by destruct (JsString.truthy s).
Qed.

(** C2.  [getExpiryBucket] gives no bucket for an absent (null, undefined
    or empty) expiry and for one that does not parse; otherwise it looks at
    the whole days from today to the expiry: no bucket when they are
    negative, else 0-3M up to 90 days, 3-6M up to 180, 6-12M up to 365, and
    12M+ beyond.  On the reference clock set to 2025-01-01 an expiry 90
    days out is in 0-3M, one 95 days out in 3-6M, and one 5 days back in no
    bucket. *)
Theorem getExpiryBucket_classifies (expiryDate : option string) :
  (expiryDate = None -> getExpiryBucket expiryDate = None) /\
  (forall s, expiryDate = Some s ->
     s = "" \/ isValid (dayjs_parse s) = false ->
     getExpiryBucket expiryDate = None) /\
  (forall s, expiryDate = Some s ->
     s <> "" -> isValid (dayjs_parse s) = true ->
     let days_until := diff_day (dayjs_parse s) dayjs_now in
     (days_until < 0 -> getExpiryBucket expiryDate = None)%Z /\
     (0 <= days_until <= 90 -> getExpiryBucket expiryDate = Some B_0_3M)%Z /\
     (90 < days_until <= 180 -> getExpiryBucket expiryDate = Some B_3_6M)%Z /\
     (180 < days_until <= 365 -> getExpiryBucket expiryDate = Some B_6_12M)%Z /\
     (365 < days_until -> getExpiryBucket expiryDate = Some B_12M_plus)%Z /\
     (days_until = 90 -> getExpiryBucket expiryDate = Some B_0_3M)%Z /\
     (days_until = 95 -> getExpiryBucket expiryDate = Some B_3_6M)%Z) /\
  (let clock := RefDayjs.on "2025-01-01" in
   @diff_day clock (@dayjs_parse clock "2025-04-01") (@dayjs_now clock) = 90%Z /\
   @getExpiryBucket clock (Some "2025-04-01") = Some B_0_3M /\
   @diff_day clock (@dayjs_parse clock "2025-04-06") (@dayjs_now clock) = 95%Z /\
   @getExpiryBucket clock (Some "2025-04-06") = Some B_3_6M /\
   @diff_day clock (@dayjs_parse clock "2024-12-27") (@dayjs_now clock) = (-5)%Z /\
   @getExpiryBucket clock (Some "2024-12-27") = None /\
   @getExpiryBucket clock (Some "not a date") = None).
Proof.
  split; [by intros -> |]. split; [intros s ->; apply getExpiryBucket_none |].
  split; [| by vm_compute].
  intros s -> Hs Hvalid days_until.
  rewrite (getExpiryBucket_days s Hs Hvalid). fold days_until.
  unfold bucket_of_days.
  repeat split; intros; repeat case_decide; first [lia | reflexivity].
Qed.

(** *** The fold over the positions *)

Lemma expiry_live_bucket (row : AggRow) :
  expiry_live row = bool_decide (is_Some (getExpiryBucket (expiry row))).
Proof.
  unfold expiry_live. destruct (expiry row) as [s|]; [| done].
  destruct (JsString.truthy s) eqn:Hs.
  - apply truthy_true in Hs.
    destruct (isValid (dayjs_parse s)) eqn:Hvalid.
    + rewrite getExpiryBucket_days by done. unfold bucket_of_days. simpl.
      destruct (Z.leb_spec 0 (diff_day (dayjs_parse s) dayjs_now));
        repeat case_decide; try lia; symmetry;
        first [ by apply bool_decide_eq_true
              | by apply bool_decide_eq_false; intros [] ].
    + by rewrite getExpiryBucket_none by auto.
  - apply truthy_false in Hs. by rewrite getExpiryBucket_none by auto.
Qed.

Lemma defined_true {A} (x : option A) : defined x = true <-> is_Some x.
Proof. destruct x; simpl; [by eauto |]. split; [done | by intros []]. Qed.

Lemma rows_in_cons (b : ExpiryBucket) (row : AggRow) (positions : list AggRow) :
  rows_in b (row :: positions) =
  if defined (mv_ssc_usd row)
     && bool_decide (getExpiryBucket (expiry row) = Some b)
  then row :: rows_in b positions else rows_in b positions.
Proof. reflexivity. Qed.

Lemma rows_in_app (b : ExpiryBucket) (l k : list AggRow) :
  rows_in b (l ++ k) = rows_in b l ++ rows_in b k.
Proof. apply List.filter_app. Qed.

Lemma cell_after_nil (b : ExpiryBucket) (c : BucketCell.t) :
  cell_after b [] c = c.
Proof. destruct c. unfold cell_after. simpl. f_equal. lia. Qed.

(** One step of the loop moves the cell of the row's bucket and no other. *)
Lemma bucket_step_cells (m : gmap ExpiryBucket BucketCell.t) (row : AggRow) :
  (forall b, is_Some (m !! b)) ->
  exists m', bucket_step m row = Some m' /\
    forall b c, m !! b = Some c -> m' !! b = Some (cell_after b [row] c).
Proof.
  intros Hall. unfold bucket_step.
  assert (Hsame : forall b c,
    defined (mv_ssc_usd row)
    && bool_decide (getExpiryBucket (expiry row) = Some b) = false ->
    cell_after b [row] c = c).
  { intros b c Hoff. unfold cell_after. rewrite rows_in_cons, Hoff.
    destruct c. simpl. f_equal. lia. }
  destruct (getExpiryBucket (expiry row)) as [bucket|] eqn:Hb;
    destruct (mv_ssc_usd row) as [v|] eqn:Hv; simpl;
    try (exists m; split; [done |]; intros b c ->;
         rewrite Hsame; [done |];
         first [ done
               | by rewrite (bool_decide_eq_false_2 (None = Some b)),
                   andb_false_r by done ]).
  destruct (Hall bucket) as [current Hcur]. rewrite Hcur. simpl.
  eexists; split; [done |]. intros b c Hc.
  destruct (decide (bucket = b)) as [-> | Hne].
  - rewrite lookup_insert_eq. rewrite Hcur in Hc. injection Hc as ->.
    unfold cell_after. rewrite rows_in_cons, Hb, Hv.
    rewrite bool_decide_eq_true_2 by done.
    unfold market_values. simpl. by rewrite Hv.
  - rewrite lookup_insert_ne by done. rewrite Hc, Hsame; [done |].
    rewrite (bool_decide_eq_false_2 (Some bucket = Some b)) by congruence.
    apply andb_false_r.
Qed.

Lemma market_values_app (l k : list AggRow) :
  market_values (l ++ k) = market_values l ++ market_values k.
Proof. apply omap_app. Qed.

Lemma cell_after_app (b : ExpiryBucket) (l k : list AggRow) (c : BucketCell.t) :
  cell_after b (l ++ k) c = cell_after b k (cell_after b l c).
Proof.
  unfold cell_after. cbn [BucketCell.mv BucketCell.count].
  rewrite rows_in_app, market_values_app, foldl_app, length_app.
  f_equal. lia.
Qed.

(** The loop never fails, and leaves in each cell the running sum and the
    number of the rows of its bucket. *)
Lemma bucket_loop_cells (positions : list AggRow)
    (m : gmap ExpiryBucket BucketCell.t) :
  (forall b, is_Some (m !! b)) ->
  exists m',
    foldl (λ acc position, m0 ← acc; bucket_step m0 position) (Some m) positions
    = Some m' /\
    forall b c, m !! b = Some c -> m' !! b = Some (cell_after b positions c).
Proof.
  revert m. induction positions as [|row positions IH]; intros m Hall.
  - exists m. split; [done |]. intros b c ->. by rewrite cell_after_nil.
  - destruct (bucket_step_cells m row Hall) as (m1 & Hstep & Hcells).
    simpl. rewrite Hstep.
    destruct (IH m1) as (m' & Hloop & Hcells').
    { intros b. destruct (Hall b) as [c Hc]. rewrite (Hcells b c Hc). eauto. }
    exists m'. split; [done |]. intros b c Hc.
    rewrite (cell_after_app b [row] positions). apply Hcells'. by apply Hcells.
Qed.

Lemma initial_cells (b : ExpiryBucket) :
  foldl (λ m bucket,
           <[bucket := {| BucketCell.mv := 0%Q; BucketCell.count := 0 |}]> m)
        (∅ : gmap ExpiryBucket BucketCell.t) buckets !! b
  = Some {| BucketCell.mv := 0%Q; BucketCell.count := 0 |}.
Proof. by destruct b. Qed.

Lemma aggregateByExpiryBucket_entries (positions : list AggRow) :
  aggregateByExpiryBucket positions = Some (map (ladder_entry positions) buckets).
Proof.
  unfold aggregateByExpiryBucket.
  destruct (bucket_loop_cells positions _
              (λ b, mk_is_Some _ _ (initial_cells b)))
    as (m' & -> & Hcells).
  simpl.
  rewrite !(Hcells _ _ (initial_cells _)). reflexivity.
Qed.

Lemma on_ladder_exactly_one (row : AggRow) :
  length (rows_in B_0_3M [row]) + length (rows_in B_3_6M [row])
  + length (rows_in B_6_12M [row]) + length (rows_in B_12M_plus [row])
  = if on_ladder row then 1 else 0.
Proof.
  unfold on_ladder. rewrite expiry_live_bucket, !rows_in_cons.
  destruct (mv_ssc_usd row) as [v|]; simpl.
  - destruct (getExpiryBucket (expiry row)) as [[]|]; reflexivity.
  - reflexivity.
Qed.

Lemma ladder_counts (positions : list AggRow) :
  length (rows_in B_0_3M positions) + length (rows_in B_3_6M positions)
  + length (rows_in B_6_12M positions) + length (rows_in B_12M_plus positions)
  = length (List.filter on_ladder positions).
Proof.
  induction positions as [|row positions IH]; [done |].
  change (row :: positions) with ([row] ++ positions).
  rewrite !rows_in_app, !length_app, List.filter_app, length_app, <- IH.
  pose proof (on_ladder_exactly_one row) as Hone.
  simpl (List.filter on_ladder [row]).
  destruct (on_ladder row); simpl (length _) at 9; lia.
Qed.

Lemma rows_in_skip (b : ExpiryBucket) (row : AggRow) (before after : list AggRow) :
  on_ladder row = false ->
  rows_in b (before ++ row :: after) = rows_in b (before ++ after).
Proof.
  intros Hoff. rewrite !rows_in_app, rows_in_cons.
  unfold on_ladder in Hoff. rewrite expiry_live_bucket in Hoff.
  destruct (defined (mv_ssc_usd row)); [| done].
  simpl in *. apply bool_decide_eq_false in Hoff.
  rewrite bool_decide_eq_false_2; [done |].
  intros Hb. apply Hoff. rewrite Hb. eauto.
Qed.

(** C1.  Whatever the positions, [aggregateByExpiryBucket] returns the four
    entries 0-3M, 3-6M, 6-12M, 12M+ in this order, each holding the sum of
    the market values and the number of the rows that have a market value
    and fall in its bucket (0 and 0 when there is none).  The four counts
    add up to the number of rows that have a market value and an expiry
    that parses and is not in the past, and a row that lacks its market
    value or has no such expiry changes nothing in the result. *)
Theorem aggregateByExpiryBucket_ladder (positions : list AggRow) :
  (exists e1 e2 e3 e4,
     aggregateByExpiryBucket positions = Some [e1; e2; e3; e4] /\
     ExpiryBucketData.bucket e1 = B_0_3M /\
     ExpiryBucketData.bucket e2 = B_3_6M /\
     ExpiryBucketData.bucket e3 = B_6_12M /\
     ExpiryBucketData.bucket e4 = B_12M_plus /\
     map ExpiryBucket_label (map ExpiryBucketData.bucket [e1; e2; e3; e4])
       = ["0-3M"; "3-6M"; "6-12M"; "12M+"] /\
     map ExpiryBucketData.displayOrder [e1; e2; e3; e4] = [1; 2; 3; 4] /\
     ExpiryBucketData.count e1 + ExpiryBucketData.count e2
     + ExpiryBucketData.count e3 + ExpiryBucketData.count e4
       = length (List.filter on_ladder positions) /\
     forall e, e ∈ [e1; e2; e3; e4] ->
       ExpiryBucketData.marketValue e
         = JsNumber.sum
             (market_values (rows_in (ExpiryBucketData.bucket e) positions)) /\
       ExpiryBucketData.count e
         = length (rows_in (ExpiryBucketData.bucket e) positions) /\
       (rows_in (ExpiryBucketData.bucket e) positions = [] ->
          ExpiryBucketData.marketValue e = 0%Q /\ ExpiryBucketData.count e = 0)) /\
  (forall before row after,
     on_ladder row = false ->
     aggregateByExpiryBucket (before ++ row :: after)
       = aggregateByExpiryBucket (before ++ after)) /\
  (forall row,
     on_ladder row = true <->
     is_Some (mv_ssc_usd row) /\
     exists s, expiry row = Some s /\ s <> "" /\
       isValid (dayjs_parse s) = true /\
       (0 <= diff_day (dayjs_parse s) dayjs_now)%Z).
Proof.
  split; [| split].
  - exists (ladder_entry positions B_0_3M), (ladder_entry positions B_3_6M),
      (ladder_entry positions B_6_12M), (ladder_entry positions B_12M_plus).
    split; [apply aggregateByExpiryBucket_entries |].
    do 6 (split; [reflexivity |]).
    split; [apply ladder_counts |].
    intros e He. rewrite !elem_of_cons, elem_of_nil in He.
    destruct He as [-> | [-> | [-> | [-> | []]]]];
      (split; [reflexivity |]; split; [reflexivity |];
       intros Hnone; simpl in *; by rewrite Hnone).
  - intros before row after Hoff. rewrite !aggregateByExpiryBucket_entries.
    f_equal. unfold ladder_entry, buckets. simpl.
    by rewrite !(rows_in_skip _ row before after Hoff).
  - intros row. unfold on_ladder, expiry_live.
    rewrite andb_true_iff, defined_true.
    destruct (expiry row) as [s|].
    + rewrite !andb_true_iff, truthy_true, Z.leb_le. naive_solver.
    + naive_solver.
Qed.

End Ladder.

(** ** The asset-type rule chain *)

Section AssetType.

Import JsString.

Lemma upper_or_empty (o : option string) :
  or_else (toUpperCase <$> o) "" = toUpperCase (default "" o).
Proof.
  destruct o as [s|]; simpl; [| done].
  by destruct (truthy (toUpperCase s)) eqn:Hs; [| apply truthy_false in Hs].
Qed.

Lemma has_any_two (text m1 m2 : string) :
  toUpperCase m1 = m1 -> toUpperCase m2 = m2 ->
  (has_any text [m1; m2] <->
   includes (toUpperCase text) m1 || includes (toUpperCase text) m2 = true).
Proof.
  intros H1 H2. rewrite orb_true_iff, !includes_upper_ci by done.
  unfold has_any. simpl. naive_solver.
Qed.

Lemma has_any_three (text m1 m2 m3 : string) :
  toUpperCase m1 = m1 -> toUpperCase m2 = m2 -> toUpperCase m3 = m3 ->
  (has_any text [m1; m2; m3] <->
   includes (toUpperCase text) m1 || includes (toUpperCase text) m2
   || includes (toUpperCase text) m3 = true).
Proof.
  intros H1 H2 H3. rewrite !orb_true_iff, !includes_upper_ci by done.
  unfold has_any. simpl. naive_solver.
Qed.

Ltac to_bool :=
  repeat match goal with
  | H : ~ (_ = true) |- _ => apply not_true_is_false in H
  end.

Ltac run_chain :=
  intros; to_bool; unfold getAssetType; rewrite !upper_or_empty;
  repeat match goal with
  | H : _ = true |- _ => rewrite H; clear H
  | H : _ = false |- _ => rewrite H; clear H
  end; reflexivity.

(** C4.  [getAssetType] is the ordered rule chain on the symbol and the
    underlying type, matched without regard to case: investment-grade
    markers first, then high-yield markers, then equity-index markers,
    then an underlying type that mentions CREDIT (with the symbol checked
    for IG, then HY, else "Credit (Other)"), then one that mentions EQUITY,
    else "Other".  The first rule that matches decides: a symbol with an
    investment-grade marker is IG whatever else it contains, and symbol
    "CDX.IG 5Y" with type "Credit" is IG. *)
Theorem getAssetType_rule_chain (position : AggRow) :
  let symbol := default "" (underlying_symbol position) in
  let type := default "" (underlying_type position) in
  let ig := has_any symbol ig_markers in
  let hy := has_any symbol hy_markers in
  let eq := has_any symbol equity_markers in
  let credit := includes_ci type "CREDIT" in
  let equity := includes_ci type "EQUITY" in
  (ig -> getAssetType position = "IG") /\
  (~ ig -> hy -> getAssetType position = "HY") /\
  (~ ig -> ~ hy -> eq -> getAssetType position = "SPY") /\
  (~ ig -> ~ hy -> ~ eq -> credit ->
     (includes_ci symbol "IG" -> getAssetType position = "IG") /\
     (~ includes_ci symbol "IG" -> includes_ci symbol "HY" ->
        getAssetType position = "HY") /\
     (~ includes_ci symbol "IG" -> ~ includes_ci symbol "HY" ->
        getAssetType position = "Credit (Other)")) /\
  (~ ig -> ~ hy -> ~ eq -> ~ credit -> equity ->
     getAssetType position = "Equity (Other)") /\
  (~ ig -> ~ hy -> ~ eq -> ~ credit -> ~ equity ->
     getAssetType position = "Other") /\
  (ig /\ eq -> getAssetType position = "IG") /\
  In (getAssetType position)
     ["IG"; "HY"; "SPY"; "Credit (Other)"; "Equity (Other)"; "Other"] /\
  getAssetType (holding (Some "CDX.IG 5Y") (Some "Credit") 1) = "IG" /\
  getAssetType (holding (Some "spy vs cdx ig") (Some "Equity") 1) = "IG".
Proof.
  intros symbol type ig hy eq credit equity.
  subst ig hy eq credit equity. unfold ig_markers, hy_markers, equity_markers.
  rewrite !has_any_two, !has_any_three by done.
  rewrite <- !(includes_upper_ci symbol), <- !(includes_upper_ci type) by done.
  subst symbol type.
  repeat split; try solve [run_chain]; try reflexivity.
  - intros [Hig _]. revert Hig. run_chain.
  - unfold getAssetType. rewrite !upper_or_empty.
    repeat match goal with
    | |- context [if ?b then _ else _] => destruct b
    end; simpl; tauto.
Qed.

End AssetType.


(** ** Sums of rationals *)

Section Sums.

Import JsNumber.

Lemma foldl_Qplus_shift (a : Q) (l : list Q) :
  (foldl Qplus a l == a + sum l)%Q.
Proof.
  unfold sum. revert a. induction l as [|x l IH]; intros a; simpl.
  - ring.
  - rewrite (IH (a + x)%Q), (IH (0 + x)%Q). ring.
Qed.

Lemma sum_cons (x : Q) (l : list Q) : (sum (x :: l) == x + sum l)%Q.
Proof. unfold sum at 1. simpl. rewrite foldl_Qplus_shift. ring. Qed.

Lemma sum_app (l k : list Q) : (sum (l ++ k) == sum l + sum k)%Q.
Proof.
  unfold sum at 1. rewrite foldl_app. fold (sum l).
  apply foldl_Qplus_shift.
Qed.

Lemma or_zero_default (o : option Q) : (or_zero o == default 0 o)%Q.
Proof.
  destruct o as [x|]; simpl; [| reflexivity].
  unfold strict_eq. destruct (Qeq_bool x 0) eqn:Hx; [| reflexivity].
  symmetry. by apply Qeq_bool_eq.
Qed.

Lemma foldl_or_zero (metric : AggRow -> option Q) (rows : list AggRow) (a : Q) :
  (foldl (λ acc row, acc + or_zero (metric row)) a rows
   == a + total_of metric rows)%Q.
Proof.
  unfold total_of. revert a. induction rows as [|row rows IH]; intros a.
  - simpl. unfold sum. simpl. ring.
  - simpl foldl at 1. rewrite IH. simpl map. rewrite sum_cons, or_zero_default.
    ring.
Qed.

End Sums.


(** ** Insertion-ordered maps and the comparator sort *)

Section Containers.

Context {V : Type}.
Implicit Types (m : JsMap.t V) (k : string) (v : V).

Lemma get_set_eq m k v : JsMap.get (JsMap.set m k v) k = Some v.
Proof.
  induction m as [|[k' v'] m IH]; simpl.
  - by rewrite String.eqb_refl.
  - destruct (String.eqb_spec k' k) as [-> | Hne]; simpl.
    + by rewrite String.eqb_refl.
    + by destruct (String.eqb_spec k' k).
Qed.

Lemma get_set_ne m k k' v :
  k <> k' -> JsMap.get (JsMap.set m k v) k' = JsMap.get m k'.
Proof.
  intros Hne. induction m as [|[k0 v0] m IH]; simpl.
  - by destruct (String.eqb_spec k k').
  - destruct (String.eqb_spec k0 k) as [-> | Hne0]; simpl.
    + by destruct (String.eqb_spec k k').
    + by rewrite IH.
Qed.

Lemma get_None_keys m k : JsMap.get m k = None <-> k ∉ map fst m.
Proof.
  induction m as [|[k' v'] m IH]; simpl.
  - split; [intros _; apply not_elem_of_nil | done].
  - rewrite not_elem_of_cons, <- IH.
    destruct (String.eqb_spec k' k); naive_solver.
Qed.

Lemma set_keys m k v :
  map fst (JsMap.set m k v)
  = if defined (JsMap.get m k) then map fst m else map fst m ++ [k].
Proof.
  induction m as [|[k' v'] m IH]; simpl; [done |].
  destruct (String.eqb_spec k' k) as [-> | Hne]; simpl; [done |].
  rewrite IH. by destruct (defined (JsMap.get m k)).
Qed.

Lemma set_keys_NoDup m k v :
  NoDup (map fst m) -> NoDup (map fst (JsMap.set m k v)).
Proof.
  intros Hm. rewrite set_keys.
  destruct (JsMap.get m k) eqn:Hk; simpl; [done |].
  apply NoDup_app. split; [done |]. split; [| apply NoDup_singleton].
  intros x Hx ->%list_elem_of_singleton. by apply get_None_keys in Hk.
Qed.

Lemma insert_perm {A} (cmp : A -> A -> Q) (x : A) (l : list A) :
  JsArray.insert cmp x l ≡ₚ x :: l.
Proof.
  induction l as [|y l IH]; simpl; [done |].
  destruct (JsNumber.gt (cmp x y) 0); [| done].
  rewrite IH. apply Permutation_swap.
Qed.

Lemma sort_perm {A} (cmp : A -> A -> Q) (l : list A) : JsArray.sort cmp l ≡ₚ l.
Proof.
  induction l as [|x l IH]; simpl; [done |].
  by rewrite insert_perm, IH.
Qed.

End Containers.

Section MoreSums.

Import JsNumber.

Lemma sum_perm (l k : list Q) : l ≡ₚ k -> (sum l == sum k)%Q.
Proof.
  induction 1 as [| x l k _ IH | x y l | l k j _ IH1 _ IH2].
  - reflexivity.
  - by rewrite !sum_cons, IH.
  - rewrite !sum_cons. ring.
  - by rewrite IH1.
Qed.

Lemma sum_snoc (l : list Q) (x : Q) : sum (l ++ [x]) = (sum l + x)%Q.
Proof. unfold sum. by rewrite foldl_snoc. Qed.

Lemma sum_abs_nonneg (l : list Q) : (0 <= sum (map Qabs l))%Q.
Proof.
  induction l as [|x l IH]; [done |].
  simpl map. rewrite sum_cons.
  apply (Qplus_le_compat 0 (Qabs x) 0); [apply Qabs_nonneg | done].
Qed.

Lemma gt_zero (a : Q) : gt a 0 = true <-> (0 < a)%Q.
Proof.
  unfold gt. rewrite Qgt_alt. by destruct (a ?= 0)%Q.
Qed.

Lemma sum_scaled (l : list Q) (t : Q) :
  (sum (map (λ x, x / t * 100) l) == sum l / t * 100)%Q.
Proof.
  induction l as [|x l IH].
  - unfold sum. simpl. unfold Qdiv. ring.
  - simpl map. rewrite !sum_cons, IH. unfold Qdiv. ring.
Qed.

Lemma sum_zeros {A} (l : list A) : (sum (map (λ _, 0%Q) l) == 0)%Q.
Proof.
  induction l as [|x l IH]; [reflexivity |].
  simpl map. rewrite sum_cons, IH. ring.
Qed.

Lemma sum_set (m : JsMap.t Q) (k : string) (v : Q) :
  (sum (map snd (JsMap.set m k v))
   == sum (map snd m) - default 0 (JsMap.get m k) + v)%Q.
Proof.
  induction m as [|[k' v'] m IH]; simpl.
  - rewrite sum_cons. unfold sum. simpl. ring.
  - destruct (String.eqb_spec k' k) as [-> | Hne]; simpl.
    + rewrite !sum_cons. ring.
    + rewrite !sum_cons, IH. ring.
Qed.

End MoreSums.

(** ** The asset-type breakdown *)

Section Breakdown.

Import JsNumber.

Lemma rows_of_type_snoc (c : string) (positions : list AggRow) (row : AggRow) :
  rows_of_type c (positions ++ [row]) =
  if defined (mv_ssc_usd row) && String.eqb (getAssetType row) c
  then rows_of_type c positions ++ [row] else rows_of_type c positions.
Proof.
  unfold rows_of_type. rewrite List.filter_app. simpl.
  destruct (defined (mv_ssc_usd row) && String.eqb (getAssetType row) c);
    [done | by rewrite app_nil_r].
Qed.

Lemma gross_snoc (positions : list AggRow) (row : AggRow) :
  gross (positions ++ [row]) =
  match mv_ssc_usd row with
  | Some v => (gross positions + Qabs v)%Q
  | None => gross positions
  end.
Proof.
  unfold gross, market_values. rewrite omap_app. simpl.
  destruct (mv_ssc_usd row) as [v|]; simpl.
  - rewrite map_app. simpl. by rewrite sum_snoc.
  - by rewrite app_nil_r.
Qed.

Lemma gross_nonneg (positions : list AggRow) : (0 <= gross positions)%Q.
Proof. apply sum_abs_nonneg. Qed.

Lemma asset_loop_ok (positions : list AggRow) :
  breakdown_ok positions (foldl asset_step (JsMap.empty, 0%Q) positions).
Proof.
  induction positions as [|row positions IH] using rev_ind.
  - repeat split; simpl; try done. apply NoDup_nil_2.
  - rewrite foldl_snoc.
    destruct (foldl asset_step (JsMap.empty, 0%Q) positions) as [m T].
    destruct IH as (HT & Hnodup & Hnone & Hsome & Hsum). simpl in *.
    unfold asset_step. unfold breakdown_ok.
    rewrite gross_snoc.
    destruct (mv_ssc_usd row) as [v|] eqn:Hv; simpl.
    + set (c0 := getAssetType row).
      assert (Hold : (or_zero (JsMap.get m c0)
                      == gross (rows_of_type c0 positions))%Q).
      { rewrite or_zero_default. destruct (JsMap.get m c0) as [v0|] eqn:Hc0.
        - by apply Hsome.
        - by rewrite (Hnone _ Hc0). }
      split; [by rewrite HT |]. split; [by apply set_keys_NoDup |].
      split; [| split].
      * intros c Hc. destruct (decide (c0 = c)) as [<- | Hne].
        { by rewrite get_set_eq in Hc. }
        rewrite get_set_ne in Hc by done.
        rewrite rows_of_type_snoc, Hv. simpl. fold c0.
        destruct (String.eqb_spec c0 c); [done | by apply Hnone].
      * intros c x Hc. rewrite rows_of_type_snoc, Hv. simpl. fold c0.
        destruct (String.eqb_spec c0 c) as [<- | Hne].
        { rewrite get_set_eq in Hc. injection Hc as <-.
          split; [by destruct (rows_of_type c0 positions) |].
          rewrite gross_snoc, Hv. by rewrite Hold. }
        rewrite get_set_ne in Hc by done. by apply Hsome.
      * rewrite sum_set, Hsum, <- or_zero_default. ring.
    + split; [done |]. split; [done |].
      split; [| split; [| done]].
      * intros c Hc. rewrite rows_of_type_snoc, Hv. simpl. by apply Hnone.
      * intros c x Hc. rewrite rows_of_type_snoc, Hv. simpl. by apply Hsome.
Qed.

End Breakdown.

Section Shares.

Import JsNumber.

Lemma get_of_elem {V} (m : JsMap.t V) (k : string) (v : V) :
  NoDup (map fst m) -> (k, v) ∈ m -> JsMap.get m k = Some v.
Proof.
  induction m as [|[k' v'] m IH]; simpl; intros Hnodup Hin.
  - by apply elem_of_nil in Hin.
  - apply NoDup_cons in Hnodup as [Hfresh Hnodup].
    apply elem_of_cons in Hin as [[= -> ->] | Hin].
    + by rewrite String.eqb_refl.
    + destruct (String.eqb_spec k' k) as [-> | Hne]; [| by apply IH].
      destruct Hfresh. apply list_elem_of_fmap. by exists (k, v).
Qed.

Lemma asset_step_skip (st : JsMap.t Q * Q) (row : AggRow) :
  mv_ssc_usd row = None -> asset_step st row = st.
Proof. intros Hv. destruct st. unfold asset_step. by rewrite Hv. Qed.

(** The entries before sorting, built from the final map and total. *)
Lemma aggregateByAssetType_perm (positions : list AggRow) :
  let st := foldl asset_step (JsMap.empty, 0%Q) positions in
  aggregateByAssetType positions
  ≡ₚ map (λ '(assetType, mv), asset_entry st.2 mv assetType) st.1.
Proof.
  unfold aggregateByAssetType.
  destruct (foldl asset_step (JsMap.empty, 0%Q) positions) as [m T].
  apply sort_perm.
Qed.

Lemma entry_types (T : Q) (m : JsMap.t Q) :
  map AssetTypeData.assetType
      (map (λ '(assetType, mv), asset_entry T mv assetType) m)
  = map fst m.
Proof. induction m as [|[k v] m IH]; simpl; [done | by rewrite IH]. Qed.

Lemma entry_percentages (T : Q) (m : JsMap.t Q) :
  map AssetTypeData.percentage
      (map (λ '(assetType, mv), asset_entry T mv assetType) m)
  = map (λ mv, if gt T 0 then (mv / T * 100)%Q else 0%Q) (map snd m).
Proof. induction m as [|[k v] m IH]; simpl; [done | by rewrite IH]. Qed.

(** C3.  [aggregateByAssetType] gives one entry per category that has a
    row with a market value.  The entry's market value is the sum of the
    absolute market values of the rows of its category (rows without a
    market value add nothing, anywhere), and its percentage is that sum
    divided by the gross total and multiplied by 100, or 0 when the gross
    total is 0.  Hence the percentages add up to 100 whenever the gross
    total is not 0. *)
Theorem aggregateByAssetType_shares (positions : list AggRow) :
  (forall e, e ∈ aggregateByAssetType positions ->
     rows_of_type (AssetTypeData.assetType e) positions <> [] /\
     (AssetTypeData.marketValue e
      == gross (rows_of_type (AssetTypeData.assetType e) positions))%Q /\
     (~ (gross positions == 0)%Q ->
      (AssetTypeData.percentage e
       == AssetTypeData.marketValue e / gross positions * 100)%Q) /\
     ((gross positions == 0)%Q -> AssetTypeData.percentage e = 0%Q)) /\
  NoDup (map AssetTypeData.assetType (aggregateByAssetType positions)) /\
  (forall c, rows_of_type c positions <> [] ->
     c ∈ map AssetTypeData.assetType (aggregateByAssetType positions)) /\
  (~ (gross positions == 0)%Q ->
   (sum (map AssetTypeData.percentage (aggregateByAssetType positions))
    == 100)%Q) /\
  (forall before row after,
     mv_ssc_usd row = None ->
     aggregateByAssetType (before ++ row :: after)
     = aggregateByAssetType (before ++ after)).
Proof.
  pose proof (aggregateByAssetType_perm positions) as Hperm.
  pose proof (asset_loop_ok positions) as Hok.
  destruct (foldl asset_step (JsMap.empty, 0%Q) positions) as [m T].
  destruct Hok as (HT & Hnodup & Hnone & Hsome & Hsum). simpl in *.
  assert (Hpos : ~ (gross positions == 0)%Q -> gt T 0 = true).
  { intros Hne. apply gt_zero. rewrite HT.
    destruct (Qle_lt_or_eq _ _ (gross_nonneg positions)) as [Hlt | Heq];
      [done | by destruct Hne]. }
  assert (Hzero : (gross positions == 0)%Q -> gt T 0 = false).
  { intros Heq. apply not_true_is_false. rewrite gt_zero, HT, Heq.
    apply Qlt_irrefl. }
  split; [| split; [| split; [| split]]].
  - intros e He. rewrite Hperm in He.
    apply list_elem_of_fmap in He as ([c v] & -> & Hin).
    apply get_of_elem in Hin; [| done].
    destruct (Hsome c v Hin) as [Hrows Hv]. simpl.
    split; [done |]. split; [done |]. split.
    + intros Hne. rewrite (Hpos Hne). by rewrite HT.
    + intros Heq. by rewrite (Hzero Heq).
  - rewrite Hperm, entry_types. done.
  - intros c Hrows. rewrite Hperm, entry_types.
    destruct (JsMap.get m c) as [v|] eqn:Hc.
    + apply dec_stable. intros Hnot. apply get_None_keys in Hnot. congruence.
    + by destruct Hrows; apply Hnone.
  - intros Hne. rewrite (sum_perm _ _ (Permutation_map _ Hperm)).
    rewrite entry_percentages, (Hpos Hne), sum_scaled, Hsum, HT.
    field. done.
  - intros before row after Hv. unfold aggregateByAssetType.
    rewrite !foldl_app. cbn [foldl]. by rewrite (asset_step_skip _ row Hv).
Qed.

End Shares.

(** ** Spread consolidation *)

Section Spreads.

Lemma participates_true (row : AggRow) :
  participates row = true <->
  exists id, spread_id row = Some id /\ id <> "" /\ is_spread_leg row = Some true.
Proof.
  unfold participates, JsString.truthy_opt.
  destruct (spread_id row) as [id|]; simpl.
  - rewrite andb_true_iff, truthy_true.
    destruct (is_spread_leg row) as [[]|]; simpl; naive_solver.
  - naive_solver.
Qed.

(** One step of the loop, seen from the key [id], on a state in which no
    member of [Object.prototype] is shadowed by an own property. *)
Lemma spread_step_lookup (s : Aggregates.t) (row : AggRow) (id : string) :
  (JsObject.inherited id = true -> Aggregates.own s !! id = None) ->
  Aggregates.own (spread_step s row) !! id =
  if participates row && bool_decide (spread_id row = Some id)
     && negb (JsObject.inherited id)
  then absorb row (Aggregates.own s !! id) else Aggregates.own s !! id.
Proof.
  intros Hinh. unfold spread_step, participates, JsString.truthy_opt.
  destruct (spread_id row) as [id'|]; [| done].
  destruct (JsString.truthy id' && default false (is_spread_leg row)); [| done].
  simpl. unfold JsObject.get.
  destruct (decide (id' = id)) as [-> | Hne].
  - rewrite bool_decide_eq_true_2 by done. simpl.
    destruct (Aggregates.own s !! id) as [a|] eqn:Ha.
    + destruct (JsObject.inherited id); [by specialize (Hinh eq_refl) |].
      simpl. rewrite !lookup_alter_eq. unfold absorb. by rewrite Ha.
    + destruct (JsObject.inherited id); simpl; [done |].
      rewrite !lookup_alter_eq. unfold absorb. by rewrite lookup_insert_eq.
  - rewrite bool_decide_eq_false_2 by congruence. simpl.
    destruct (Aggregates.own s !! id') as [a|].
    + simpl. by rewrite !lookup_alter_ne.
    + destruct (JsObject.inherited id'); simpl; [done |].
      rewrite !lookup_alter_ne by done. by rewrite lookup_insert_ne.
Qed.

Lemma spread_loop_lookup (data : list AggRow) (s : Aggregates.t) (id : string) :
  (JsObject.inherited id = true -> Aggregates.own s !! id = None) ->
  Aggregates.own (foldl spread_step s data) !! id
  = if JsObject.inherited id then None
    else foldl (λ o row, absorb row o) (Aggregates.own s !! id) (legs_of id data).
Proof.
  revert s. induction data as [|row data IH]; intros s Hinh.
  { simpl. destruct (JsObject.inherited id); [by apply Hinh | done]. }
  pose proof (spread_step_lookup s row id Hinh) as Hstep.
  simpl foldl at 1. rewrite IH.
  - destruct (JsObject.inherited id); [done |].
    rewrite Hstep, andb_true_r. unfold legs_of. simpl.
    by destruct (participates row && bool_decide (spread_id row = Some id)).
  - intros Hid. rewrite Hstep, Hid, andb_false_r. by apply Hinh.
Qed.

(** The aggregate of a spread is built from its legs in input order; a
    [spread_id] that names a member of [Object.prototype] never gets
    one. *)
Lemma spreadAggregates_lookup (data : list AggRow) (id : string) :
  spreadAggregates data !! id
  = if JsObject.inherited id then None
    else foldl (λ o row, absorb row o) None (legs_of id data).
Proof.
  unfold spreadAggregates, spread_loop.
  rewrite spread_loop_lookup by (intros _; apply lookup_empty).
  simpl. by rewrite lookup_empty.
Qed.

(** Once an aggregate exists, further legs add to its totals and keep its
    name. *)
Lemma absorb_more (rows : list AggRow) (a : SpreadAggregate.t) :
  exists b,
    foldl (λ o row, absorb row o) (Some a) rows = Some b /\
    SpreadAggregate.spread_name b = SpreadAggregate.spread_name a /\
    (SpreadAggregate.mv_total b
     == SpreadAggregate.mv_total a + total_of mv_ssc_usd rows)%Q /\
    (SpreadAggregate.pnl_1d_total b
     == SpreadAggregate.pnl_1d_total a + total_of pnl_1d_usd rows)%Q /\
    (SpreadAggregate.pnl_mtd_total b
     == SpreadAggregate.pnl_mtd_total a + total_of pnl_mtd_usd rows)%Q.
Proof.
  revert a. induction rows as [|row rows IH]; intros a.
  - exists a. unfold total_of, JsNumber.sum. simpl.
    repeat split; ring.
  - simpl foldl. unfold absorb at 2.
    match goal with
    | |- context [foldl _ (Some ?a') rows] =>
        destruct (IH a') as (b & -> & Hn & Hmv & H1d & Hmtd)
    end.
    exists b. simpl in *. unfold total_of in *. simpl map.
    rewrite !sum_cons, <- !or_zero_default.
    repeat split; [done | rewrite Hmv | rewrite H1d | rewrite Hmtd]; ring.
Qed.

Lemma absorb_first (first : AggRow) (rest : list AggRow) :
  exists b,
    foldl (λ o row, absorb row o) None (first :: rest) = Some b /\
    SpreadAggregate.spread_name b = name_given_by first /\
    (SpreadAggregate.mv_total b == total_of mv_ssc_usd (first :: rest))%Q /\
    (SpreadAggregate.pnl_1d_total b == total_of pnl_1d_usd (first :: rest))%Q /\
    (SpreadAggregate.pnl_mtd_total b == total_of pnl_mtd_usd (first :: rest))%Q.
Proof.
  simpl foldl. unfold absorb at 2.
  match goal with
  | |- context [foldl _ (Some ?a') rest] =>
      destruct (absorb_more rest a') as (b & -> & Hn & Hmv & H1d & Hmtd)
  end.
  exists b. simpl in *. unfold total_of in *. simpl map.
  rewrite !sum_cons, <- !or_zero_default.
  split; [done |]. split.
  - rewrite Hn. unfold name_given_by, JsString.or_else.
    destruct (spread_name first) as [name|]; [| done].
    case_decide as Hname.
    + by apply truthy_false in Hname as ->.
    + by apply truthy_true in Hname as ->.
  - repeat split; [rewrite Hmv | rewrite H1d | rewrite Hmtd]; ring.
Qed.

Lemma legs_of_elem (id : string) (data : list AggRow) (row : AggRow) :
  row ∈ legs_of id data <->
  row ∈ data /\ spread_id row = Some id /\ id <> ""
  /\ is_spread_leg row = Some true.
Proof.
  unfold legs_of. rewrite !list_elem_of_In, filter_In, andb_true_iff.
  rewrite participates_true, bool_decide_eq_true. naive_solver.
Qed.

(** C5, as amended.  Spread consolidation takes in exactly the rows with a
    non-empty [spread_id] and [is_spread_leg] true.  A spread id that does
    not name a member of [Object.prototype] has an aggregate exactly when
    some such row carries it, and the aggregate holds the sums of the signed
    market value, the daily PnL and the month-to-date PnL of these rows, an
    undefined metric counting as 0.  Two legs of "S1" worth 100 and -40 give
    a market-value total of 60. *)
Theorem spreadAggregates_totals (data : list AggRow) (id : string) :
  JsObject.inherited id = false ->
  (forall row,
     row ∈ legs_of id data <->
     row ∈ data /\ spread_id row = Some id /\ id <> ""
     /\ is_spread_leg row = Some true) /\
  (legs_of id data = [] -> spreadAggregates data !! id = None) /\
  (legs_of id data <> [] ->
   exists agg,
     spreadAggregates data !! id = Some agg /\
     (SpreadAggregate.mv_total agg
      == total_of mv_ssc_usd (legs_of id data))%Q /\
     (SpreadAggregate.pnl_1d_total agg
      == total_of pnl_1d_usd (legs_of id data))%Q /\
     (SpreadAggregate.pnl_mtd_total agg
      == total_of pnl_mtd_usd (legs_of id data))%Q) /\
  SpreadAggregate.mv_total
    <$> spreadAggregates [leg "S1" None 100; leg "S1" None (-40)] !! "S1"
  = Some 60%Q.
Proof.
  intros Hkey. split; [intros row; apply legs_of_elem |].
  rewrite spreadAggregates_lookup, Hkey.
  split; [by intros -> |]. split; [| by vm_compute].
  destruct (legs_of id data) as [|first rest]; [done |]. intros _.
  destruct (absorb_first first rest) as (b & Hb & _ & Hmv & H1d & Hmtd).
  by exists b.
Qed.

Lemma spreadAggregates_totals_witness :
  let data := [leg "S1" None 100; leg "S2" None 7; leg "S1" None (-40)] in
  (forall row,
     row ∈ legs_of "S1" data <->
     row ∈ data /\ spread_id row = Some "S1" /\ "S1" <> ""
     /\ is_spread_leg row = Some true) /\
  (legs_of "S1" data = [] -> spreadAggregates data !! "S1" = None) /\
  (legs_of "S1" data <> [] ->
   exists agg,
     spreadAggregates data !! "S1" = Some agg /\
     (SpreadAggregate.mv_total agg
      == total_of mv_ssc_usd (legs_of "S1" data))%Q /\
     (SpreadAggregate.pnl_1d_total agg
      == total_of pnl_1d_usd (legs_of "S1" data))%Q /\
     (SpreadAggregate.pnl_mtd_total agg
      == total_of pnl_mtd_usd (legs_of "S1" data))%Q) /\
  SpreadAggregate.mv_total
    <$> spreadAggregates [leg "S1" None 100; leg "S1" None (-40)] !! "S1"
  = Some 60%Q.
Proof.
  apply (spreadAggregates_totals
           [leg "S1" None 100; leg "S2" None 7; leg "S1" None (-40)] "S1").
  reflexivity.
Defined.

(** C5, as stated, fails on a row whose [spread_id] is the empty string:
    the row has a defined [spread_id] and is marked as a leg, yet no
    aggregate is made for it. *)
Lemma spreadAggregates_defined_id_counterexample :
  let row := leg "" (Some "Collar") 100 in
  (spread_id row = Some "" /\ is_spread_leg row = Some true /\
   legs_if_defined "" [row] = [row] /\
   spreadAggregates [row] !! "" = None /\
   spreadAggregates [row] = ∅) /\
  ~ (forall data id,
       legs_if_defined id data <> [] ->
       exists agg,
         spreadAggregates data !! id = Some agg /\
         (SpreadAggregate.mv_total agg
          == total_of mv_ssc_usd (legs_if_defined id data))%Q).
Proof.
  split; [by vm_compute |].
  intros Hclaim.
  destruct (Hclaim [leg "" (Some "Collar") 100] "") as (agg & Hagg & _);
    [done | by vm_compute in Hagg].
Qed.

(** C9, on the failing input.  One leg of the spread "constructor", named
    "Collar": the row passes the guard and is the first leg of its spread,
    but [aggregates["constructor"]] finds the member inherited from
    [Object.prototype], so no aggregate is created and none carries the
    name; the three totals are written, as NaN, on the inherited member.
    The name of a consolidated spread is therefore not, for every
    [spread_id], the one given by its first leg. *)
Lemma spreadAggregates_name_inherited_id :
  let row := leg "constructor" (Some "Collar") 100 in
  (participates row = true /\
   head (legs_of "constructor" [row]) = Some row /\
   name_given_by row = "Collar" /\
   JsObject.get (∅ : gmap string SpreadAggregate.t) "constructor"
   = JsObject.Inherited /\
   spreadAggregates [row] = ∅ /\
   prototype_writes [row] = ["constructor"]) /\
  ~ (forall data id,
       SpreadAggregate.spread_name <$> spreadAggregates data !! id
       = name_given_by <$> head (legs_of id data)).
Proof.
  split; [by vm_compute |].
  intros Hclaim.
  specialize (Hclaim [leg "constructor" (Some "Collar") 100] "constructor").
  by vm_compute in Hclaim.
Qed.

(** C10.  A row whose [spread_id] is the empty string takes no part in
    spread consolidation, marked as a leg or not: the aggregates are the
    ones computed without the row. *)
Theorem spreadAggregates_empty_id_excluded (before after : list AggRow)
    (row : AggRow) :
  spread_id row = Some "" ->
  spreadAggregates (before ++ row :: after) = spreadAggregates (before ++ after).
Proof.
  intros Hid. unfold spreadAggregates, spread_loop. rewrite !foldl_app. simpl.
  do 2 f_equal. unfold spread_step. by rewrite Hid.
Qed.

Lemma spreadAggregates_empty_id_excluded_witness :
  spreadAggregates
    ([leg "S1" None 100] ++ leg "" (Some "Collar") 7 :: [leg "S1" None (-40)])
  = spreadAggregates ([leg "S1" None 100] ++ [leg "S1" None (-40)]).
Proof.
  exact (spreadAggregates_empty_id_excluded
           [leg "S1" None 100] [leg "S1" None (-40)]
           (leg "" (Some "Collar") 7) eq_refl).
Defined.

End Spreads.

(** ** The table filter *)

Section Filter.

Import JsString.

Lemma guard_off (selected : string) (field : option string) :
  truthy selected && strict_ne field selected = false <->
  selected = "" \/ field = Some selected.
Proof.
  rewrite andb_false_iff, truthy_false. unfold strict_ne.
  destruct field as [t|]; [rewrite negb_false_iff, String.eqb_eq |];
    naive_solver.
Qed.

Lemma matches_ci (field : option string) (query : string) :
  matches field (toLowerCase query) = true <->
  exists text, field = Some text /\ includes_ci text query.
Proof.
  destruct field as [text|]; simpl.
  - rewrite includes_lower_ci. naive_solver.
  - naive_solver.
Qed.

(** C7.  The filter admits a row exactly when the family filter is empty or
    equals the row's hedge family, the strategy filter is empty or equals
    the row's strategy, and the query is empty or occurs, case ignored, in
    the row's investment description, hedge label or investment id (an
    absent field never matches); the filtered table holds exactly the
    admitted rows. *)
Theorem filterRow_admits (family strat query : string) (row : AggRow)
    (aggData : list AggRow) :
  (filterRow family strat query row = true <-> admits family strat query row)
  /\ (row ∈ filteredData aggData family strat query <->
      row ∈ aggData /\ admits family strat query row).
Proof.
  assert (Hrow : forall r,
    filterRow family strat query r = true <-> admits family strat query r).
  { intros r. unfold filterRow, admits.
    rewrite <- !guard_off.
    destruct (truthy family && strict_ne (hedge_family r) family);
      [naive_solver |].
    destruct (truthy strat && strict_ne (strategy r) strat);
      [naive_solver |].
    destruct (truthy query) eqn:Hq.
    - apply truthy_true in Hq.
      destruct (matches (investment_description r) _) eqn:Hd;
      destruct (matches (hedge_label r) _) eqn:Hl;
      destruct (matches (investment_id r) _) eqn:Hi; simpl;
      try apply matches_ci in Hd; try apply matches_ci in Hl;
      try apply matches_ci in Hi;
      try (split; [intros _ | done]; split; [done |]; split; [done |];
           right; naive_solver).
      split; [done |]. intros (_ & _ & [? | (text & Hfield & Hci)]); [done |].
      assert (matches (Some text) (toLowerCase query) = true) as Hm
        by (apply matches_ci; eauto).
      destruct Hfield as [Hf | [Hf | Hf]]; rewrite <- Hf in Hm; congruence.
    - apply truthy_false in Hq. naive_solver. }
  split; [apply Hrow |].
  unfold filteredData. rewrite <- Hrow, !list_elem_of_In, filter_In.
  done.
Qed.

End Filter.

(** ** Basis points *)

Section BasisPoints.

Variable toFixed : Q -> nat -> string.

Lemma strict_eq_zero (x : Q) : JsNumber.strict_eq x 0 = true <-> (x == 0)%Q.
Proof. apply Qeq_bool_iff. Qed.

(** C8, as amended.  [formatBasisPoints] returns the dash "-" when the
    value is absent or the reference total is zero; otherwise it returns
    the quotient (value / reference total) x 10000 as rendered by [toFixed]
    with the requested number of decimals (1 when none is given), followed
    by " bps".  So 150 against 1,000,000 gives "1.5 bps", and 150 against 0
    gives the dash, which is neither a zero nor an infinity. *)
Theorem formatBasisPoints_renders (value : option Q) (portfolioTotal : Q)
    (decimals : option nat) :
  (value = None \/ (portfolioTotal == 0)%Q ->
   formatBasisPoints toFixed value portfolioTotal decimals = "-") /\
  (forall v, value = Some v -> ~ (portfolioTotal == 0)%Q ->
   formatBasisPoints toFixed value portfolioTotal decimals
   = toFixed (v / portfolioTotal * 10000)%Q (default 1 decimals) +:+ " bps") /\
  formatBasisPoints RefNumber.toFixed (Some 150%Q) 1000000 None = "1.5 bps" /\
  formatBasisPoints RefNumber.toFixed (Some 150%Q) 0 None = "-" /\
  formatBasisPoints RefNumber.toFixed (Some 150%Q) 0 None
    <> formatBasisPoints RefNumber.toFixed (Some 0%Q) 1000000 None.
Proof.
  split; [| split; [| by vm_compute]].
  - unfold formatBasisPoints. intros [-> | Hzero]; [done |].
    destruct value as [v|]; [| done].
    apply strict_eq_zero in Hzero. by rewrite Hzero.
  - intros v -> Hnonzero. unfold formatBasisPoints, bps_of.
    destruct (JsNumber.strict_eq portfolioTotal 0) eqn:Hzero; [| done].
    by apply strict_eq_zero in Hzero.
Qed.

End BasisPoints.

(** C8, as stated, fails: the function does not return the quotient but its
    text rounded to one decimal.  With a reference total of 1,000,000 the
    values 123 and 120 have the quotients 1.23 and 1.2, and both give
    "1.2 bps". *)
Lemma formatBasisPoints_rounds_counterexample :
  formatBasisPoints RefNumber.toFixed (Some 123%Q) 1000000 None = "1.2 bps" /\
  formatBasisPoints RefNumber.toFixed (Some 120%Q) 1000000 None = "1.2 bps" /\
  (bps_of 123 1000000 == 123 # 100)%Q /\
  (bps_of 120 1000000 == 12 # 10)%Q /\
  ~ (bps_of 123 1000000 == bps_of 120 1000000)%Q.
Proof. repeat split; by vm_compute. Qed.

(** ** Worked examples *)

(** A ladder read on 2025-01-01: rows 90 and 95 days out land in the first
    two buckets; an expired row, a row without market value and a row whose
    expiry is not a date are left out. *)
Example ladder_on_new_year :
  @aggregateByExpiryBucket (RefDayjs.on "2025-01-01")
    [expiring (Some "2025-04-01") (Some 100%Q);
     expiring (Some "2025-04-06") (Some (-40)%Q);
     expiring (Some "2024-12-27") (Some 7%Q);
     expiring (Some "2025-02-01") None;
     expiring (Some "soon") (Some 3%Q)]
  = Some
      [ {| ExpiryBucketData.bucket := B_0_3M;
           ExpiryBucketData.marketValue := 100;
           ExpiryBucketData.count := 1;
           ExpiryBucketData.displayOrder := 1 |};
        {| ExpiryBucketData.bucket := B_3_6M;
           ExpiryBucketData.marketValue := -40;
           ExpiryBucketData.count := 1;
           ExpiryBucketData.displayOrder := 2 |};
        {| ExpiryBucketData.bucket := B_6_12M;
           ExpiryBucketData.marketValue := 0;
           ExpiryBucketData.count := 0;
           ExpiryBucketData.displayOrder := 3 |};
        {| ExpiryBucketData.bucket := B_12M_plus;
           ExpiryBucketData.marketValue := 0;
           ExpiryBucketData.count := 0;
           ExpiryBucketData.displayOrder := 4 |} ].
Proof. by vm_compute. Qed.

(** At ten in the morning an expiry dated today is ten hours back; the
    difference in whole days is 0, so the row is still in the first bucket,
    while an expiry dated yesterday is one whole day back and is dropped. *)
Example expiry_earlier_today :
  let clock :=
    RefDayjs.at_ms (default 0 (RefDayjs.parse "2025-01-01") + 36000000)%Z in
  @getExpiryBucket clock (Some "2025-01-01") = Some B_0_3M /\
  @getExpiryBucket clock (Some "2024-12-31") = None.
Proof. by vm_compute. Qed.

(** Gross exposure by asset type, largest first: the two equity rows are
    merged, the short position counts with its absolute value. *)
Example breakdown_of_five :
  let result :=
    aggregateByAssetType
      [holding (Some "cdx.ig 5Y") (Some "Credit") 1;
       holding (Some "SPY") None (-3);
       holding (Some "TLT") None 3;
       holding (Some "SPX") None 2;
       holding (Some "HYG") None 1] in
  map (λ e, (AssetTypeData.assetType e, AssetTypeData.marketValue e,
             Qred (AssetTypeData.percentage e), AssetTypeData.color e)) result
  = [("SPY", 5%Q, 50%Q, "#2dd4bf"); ("Other", 3%Q, 30%Q, "#6b7280");
     ("IG", 1%Q, 10%Q, "#14b8a6"); ("HY", 1%Q, 10%Q, "#0d9488")].
Proof. by vm_compute. Qed.

(** Family filter "Hybrid Hedges" with query "digital": the rows of that
    family whose description, label or id mentions the word, in any case. *)
Example filter_hybrid_digital :
  filteredData
    [described (Some "Hybrid Hedges") None (Some "SPX Digital put") None None;
     described (Some "Hybrid") None (Some "SPX digital put") None None;
     described (Some "Hybrid Hedges") None (Some "SPX put") None None;
     described (Some "Hybrid Hedges") None None None (Some "DIGITAL-17");
     described None None (Some "digital") None None]
    "Hybrid Hedges" "" "digital"
  = [described (Some "Hybrid Hedges") None (Some "SPX Digital put") None None;
     described (Some "Hybrid Hedges") None None None (Some "DIGITAL-17")].
Proof. by vm_compute. Qed.

(** Rendering to a given number of decimals. *)
Example toFixed_samples :
  RefNumber.toFixed (3 # 2) 1 = "1.5" /\
  RefNumber.toFixed (123 # 100) 1 = "1.2" /\
  RefNumber.toFixed (25 # 100) 1 = "0.3" /\
  RefNumber.toFixed (- (4 # 100)) 1 = "-0.0" /\
  RefNumber.toFixed (12345 # 10) 0 = "1235" /\
  RefNumber.toFixed (12345 # 1000) 2 = "12.35" /\
  RefNumber.toFixed 0 3 = "0.000".
Proof. by vm_compute. Qed.

(** * Further properties *)

(** ** The order of the breakdown *)

Section SortFacts.

Context {A : Type} (cmp : A -> A -> Q) (le : A -> A -> Prop).

Hypothesis le_trans : forall x y z, le x y -> le y z -> le x z.
Hypothesis cmp_after : forall x y, JsNumber.gt (cmp x y) 0 = true -> le y x.
Hypothesis cmp_before : forall x y, JsNumber.gt (cmp x y) 0 = false -> le x y.

Lemma insert_sorted (x : A) (l : list A) :
  StronglySorted le l -> StronglySorted le (JsArray.insert cmp x l).
Proof using le_trans cmp_after cmp_before.
  induction 1 as [|y l Hsorted IH Hall]; simpl.
  - constructor; [constructor | constructor].
  - destruct (JsNumber.gt (cmp x y) 0) eqn:Hcmp.
    + constructor; [done |].
      rewrite (insert_perm cmp x l). constructor; [by apply cmp_after | done].
    + apply cmp_before in Hcmp.
      constructor; [by constructor |]. constructor; [done |].
      eapply Forall_impl; [exact Hall |]. intros z Hz. by eapply le_trans.
Qed.

Lemma sort_sorted (l : list A) : StronglySorted le (JsArray.sort cmp l).
Proof using le_trans cmp_after cmp_before.
  induction l as [|x l IH]; simpl; [constructor | by apply insert_sorted].
Qed.

End SortFacts.

Section BreakdownOrder.

Import JsNumber.

Lemma gt_sub_zero (a b : Q) : gt (b - a) 0 = true <-> (a < b)%Q.
Proof. rewrite gt_zero. split; intros Hlt; lra. Qed.

Lemma gt_sub_zero_false (a b : Q) : gt (b - a) 0 = false <-> (b <= a)%Q.
Proof.
  rewrite <- not_true_iff_false, gt_sub_zero. split; [apply Qnot_lt_le |].
  intros Hle Hlt. by apply (Qlt_not_le _ _ Hlt).
Qed.

(** X1.  The entries of [aggregateByAssetType] come in descending order of
    market value: no entry is followed, anywhere down the list, by one with
    a larger market value. *)
Theorem aggregateByAssetType_descending (positions : list AggRow) :
  StronglySorted by_value_desc (aggregateByAssetType positions).
Proof.
  unfold aggregateByAssetType.
  destruct (foldl asset_step (JsMap.empty, 0%Q) positions) as [m T].
  apply sort_sorted; unfold by_value_desc.
  - intros x y z Hxy Hyz. by apply (Qle_trans _ _ _ Hyz Hxy).
  - intros x y Hgt. apply gt_sub_zero in Hgt. by apply Qlt_le_weak.
  - intros x y Hgt. by apply gt_sub_zero_false in Hgt.
Qed.

Lemma gross_of_type_le (c : string) (positions : list AggRow) :
  (gross (rows_of_type c positions) <= gross positions)%Q.
Proof.
  induction positions as [|row positions IH] using rev_ind; [done |].
  rewrite rows_of_type_snoc, gross_snoc.
  destruct (mv_ssc_usd row) as [v|] eqn:Hv; simpl; [| done].
  pose proof (Qabs_nonneg v).
  destruct (String.eqb (getAssetType row) c).
  - rewrite gross_snoc, Hv. lra.
  - lra.
Qed.

(** X2.  Every entry of the breakdown has a market value that is not
    negative and not above the gross total, and a percentage between 0 and
    100. *)
Theorem aggregateByAssetType_bounds (positions : list AggRow)
    (e : AssetTypeData.t) :
  e ∈ aggregateByAssetType positions ->
  (0 <= AssetTypeData.marketValue e <= gross positions)%Q /\
  (0 <= AssetTypeData.percentage e <= 100)%Q.
Proof.
  intros He.
  pose proof (aggregateByAssetType_perm positions) as Hperm.
  pose proof (asset_loop_ok positions) as Hok.
  destruct (foldl asset_step (JsMap.empty, 0%Q) positions) as [m T].
  destruct Hok as (HT & Hnodup & Hnone & Hsome & Hsum). simpl in *.
  rewrite Hperm in He.
  apply list_elem_of_fmap in He as ([c v] & -> & Hin).
  apply get_of_elem in Hin; [| done].
  destruct (Hsome c v Hin) as [_ Hv]. simpl.
  pose proof (gross_nonneg (rows_of_type c positions)) as Hlo.
  pose proof (gross_of_type_le c positions) as Hhi.
  rewrite <- Hv in Hlo, Hhi.
  split; [done |].
  destruct (gt T 0) eqn:HT0; [| done].
  apply gt_zero in HT0. rewrite HT in *.
  split.
  - apply Qmult_le_0_compat; [| done].
    apply Qle_shift_div_l; [done |]. lra.
  - assert (v / gross positions <= 1)%Q.
    { apply Qle_shift_div_r; [done |]. lra. }
    lra.
Qed.

End BreakdownOrder.

Lemma aggregateByAssetType_bounds_witness :
  let positions := [holding (Some "SPY") None (-3); holding (Some "TLT") None 1] in
  let e := asset_entry 4 3 "SPY" in
  (0 <= AssetTypeData.marketValue e <= gross positions)%Q /\
  (0 <= AssetTypeData.percentage e <= 100)%Q.
Proof.
  apply (aggregateByAssetType_bounds
           [holding (Some "SPY") None (-3); holding (Some "TLT") None 1]
           (asset_entry 4 3 "SPY")).
  vm_compute. apply list_elem_of_here.
Defined.

Section PieChart.

Import JsNumber.

Lemma pie_totalMV_sum (assetData : list AssetTypeData.t) :
  pie_totalMV assetData = sum (map AssetTypeData.marketValue assetData).
Proof. unfold pie_totalMV, sum. by rewrite foldl_fmap. Qed.

Lemma no_rows_of_any_type (positions : list AggRow) :
  (forall c, rows_of_type c positions = []) <-> market_values positions = [].
Proof.
  unfold rows_of_type, market_values.
  induction positions as [|row positions IH]; simpl; [done |].
  destruct (mv_ssc_usd row) as [v|]; simpl.
  - split; [| done]. intros Hnone. specialize (Hnone (getAssetType row)).
    by rewrite String.eqb_refl in Hnone.
  - done.
Qed.

Lemma pie_totalMV_gross (positions : list AggRow) :
  (pie_totalMV (aggregateByAssetType positions) == gross positions)%Q.
Proof.
  pose proof (aggregateByAssetType_perm positions) as Hperm.
  pose proof (asset_loop_ok positions) as Hok.
  destruct (foldl asset_step (JsMap.empty, 0%Q) positions) as [m T].
  destruct Hok as (HT & Hnodup & Hnone & Hsome & Hsum). simpl in *.
  rewrite pie_totalMV_sum, (sum_perm _ _ (Permutation_map _ Hperm)).
  assert (map AssetTypeData.marketValue
            (map (λ '(assetType, mv), asset_entry T mv assetType) m)
          = map snd m) as ->.
  { clear. induction m as [|[k v] m IH]; simpl; [done | by rewrite IH]. }
  by rewrite Hsum, HT.
Qed.

(** X3.  The total in the header of the pie chart, the sum of the market
    values of the entries, equals the gross exposure of the positions; and
    the chart has no entry (it shows "No hedge positions") exactly when no
    position has a market value. *)
Theorem pie_total_is_gross (positions : list AggRow) :
  (pie_totalMV (aggregateByAssetType positions) == gross positions)%Q /\
  (aggregateByAssetType positions = [] <-> market_values positions = []).
Proof.
  split; [apply pie_totalMV_gross |].
  pose proof (aggregateByAssetType_perm positions) as Hperm.
  pose proof (asset_loop_ok positions) as Hok.
  destruct (foldl asset_step (JsMap.empty, 0%Q) positions) as [m T].
  destruct Hok as (HT & Hnodup & Hnone & Hsome & Hsum). simpl in *.
  rewrite <- no_rows_of_any_type. split.
  - intros Hempty c. rewrite Hempty in Hperm.
    apply Permutation_nil in Hperm.
    destruct m as [|[k v] m]; [by apply Hnone | done].
  - intros Hrows. destruct m as [|[k v] m]; [by apply Permutation_nil |].
    destruct (Hsome k v) as [Hk _]; [simpl; by rewrite String.eqb_refl |].
    by destruct Hk.
Qed.

(** X4.  The colour of every entry is the one [colorMap] holds for its
    asset type: [getAssetType] only returns keys of [colorMap], so the
    fallback colour is never needed. *)
Theorem aggregateByAssetType_colors (positions : list AggRow)
    (e : AssetTypeData.t) :
  e ∈ aggregateByAssetType positions ->
  colorMap !! AssetTypeData.assetType e = Some (AssetTypeData.color e).
Proof.
  intros He.
  pose proof (aggregateByAssetType_perm positions) as Hperm.
  pose proof (asset_loop_ok positions) as Hok.
  destruct (foldl asset_step (JsMap.empty, 0%Q) positions) as [m T].
  destruct Hok as (HT & Hnodup & Hnone & Hsome & Hsum). simpl in *.
  rewrite Hperm in He.
  apply list_elem_of_fmap in He as ([c v] & -> & Hin).
  apply get_of_elem in Hin; [| done].
  destruct (Hsome c v Hin) as [Hrows _]. simpl.
  assert (exists row, getAssetType row = c) as [row <-].
  { destruct (rows_of_type c positions) as [|row rows] eqn:Hr; [done |].
    exists row. assert (In row (rows_of_type c positions)) as Hrow
      by (rewrite Hr; by left).
    apply filter_In in Hrow as [_ Hrow].
    apply andb_true_iff in Hrow as [_ Hrow]. by apply String.eqb_eq. }
  unfold getAssetType.
  repeat match goal with
  | |- context [if ?b then _ else _] => destruct b
  end; reflexivity.
Qed.

Lemma aggregateByAssetType_colors_witness :
  colorMap !! AssetTypeData.assetType (asset_entry 3 3 "SPY")
  = Some (AssetTypeData.color (asset_entry 3 3 "SPY")).
Proof.
  apply (aggregateByAssetType_colors [holding (Some "SPY") None (-3)]).
  vm_compute. apply list_elem_of_here.
Defined.

End PieChart.

Section Classifiers.

Import JsString.

Lemma same_text_upper (a b : option string) :
  same_text_ci a b ->
  or_else (toUpperCase <$> a) "" = or_else (toUpperCase <$> b) "".
Proof.
  unfold same_text_ci. rewrite eq_ci_lower, lower_eq_iff_upper_eq.
  by rewrite !upper_or_empty.
Qed.

(** X5.  [getAssetType] does not look at the case of letters: two positions
    whose symbols and whose underlying types agree up to case (an absent
    field counting as an empty one) get the same asset type. *)
Theorem getAssetType_ignores_case (p q : AggRow) :
  same_text_ci (underlying_symbol p) (underlying_symbol q) ->
  same_text_ci (underlying_type p) (underlying_type q) ->
  getAssetType p = getAssetType q.
Proof.
  intros Hsym Hty. unfold getAssetType.
  by rewrite (same_text_upper _ _ Hsym), (same_text_upper _ _ Hty).
Qed.

Lemma getAssetType_ignores_case_witness :
  getAssetType (holding (Some "Cdx.Hy 5y") (Some "credit") 1)
  = getAssetType (holding (Some "CDX.HY 5Y") (Some "Credit") 2).
Proof.
  apply getAssetType_ignores_case; vm_compute; tauto.
Defined.

End Classifiers.

Section LadderOrder.

Context `{Dayjs}.

(** X6.  The ladder follows time: of two expiries that both get a bucket,
    the one fewer days away never falls in a later bucket. *)
Theorem getExpiryBucket_monotone (s t : string) (a b : ExpiryBucket) :
  getExpiryBucket (Some s) = Some a ->
  getExpiryBucket (Some t) = Some b ->
  (diff_day (dayjs_parse s) dayjs_now <= diff_day (dayjs_parse t) dayjs_now)%Z ->
  bucket_le a b.
Proof.
  unfold getExpiryBucket, bucket_le.
  destruct (JsString.truthy s); simpl; [| done].
  destruct (JsString.truthy t); simpl; [| done].
  destruct (isValid (dayjs_parse s)); simpl; [| done].
  destruct (isValid (dayjs_parse t)); simpl; [| done].
  rewrite !bucket_of_days_code. unfold bucket_of_days.
  intros Ha Hb Hle.
  repeat case_decide; simplify_eq; simpl; lia.
Qed.

End LadderOrder.

Lemma getExpiryBucket_monotone_witness :
  bucket_le B_0_3M B_6_12M.
Proof.
  apply (@getExpiryBucket_monotone (RefDayjs.on "2025-01-01")
           "2025-02-01" "2025-09-01" B_0_3M B_6_12M);
    vm_compute; first [reflexivity | discriminate].
Defined.

Section LadderTotals.

Context `{Dayjs}.

Import JsNumber.

Lemma on_ladder_bucket (row : AggRow) :
  on_ladder row =
  defined (mv_ssc_usd row)
  && bool_decide (is_Some (getExpiryBucket (expiry row))).
Proof. unfold on_ladder. by rewrite expiry_live_bucket. Qed.

Lemma ladder_mv_split (positions : list AggRow) :
  (sum (market_values (rows_in B_0_3M positions))
   + sum (market_values (rows_in B_3_6M positions))
   + sum (market_values (rows_in B_6_12M positions))
   + sum (market_values (rows_in B_12M_plus positions))
   == sum (market_values (List.filter on_ladder positions)))%Q.
Proof.
  induction positions as [|row positions IH]; [done |].
  rewrite !rows_in_cons. simpl List.filter. rewrite on_ladder_bucket.
  destruct (mv_ssc_usd row) as [v|] eqn:Hv; simpl; [| exact IH].
  destruct (getExpiryBucket (expiry row)) as [[]|]; simpl;
    unfold market_values in *; simpl; rewrite ?Hv; simpl;
    rewrite ?sum_cons, <- ?IH; ring.
Qed.

(** X7.  The header of the expiry ladder: the ladder is always computed,
    its total market value is the sum of the market values of the rows that
    have one and a live expiry, its total count is their number, and the
    chart gives way to "No trades with expiry" exactly when there is no such
    row. *)
Theorem ladder_header_totals (positions : list AggRow) :
  exists bucketData,
    aggregateByExpiryBucket positions = Some bucketData /\
    (ladder_totalMV bucketData
     == sum (market_values (List.filter on_ladder positions)))%Q /\
    ladder_totalCount bucketData = length (List.filter on_ladder positions) /\
    (ladder_totalCount bucketData = 0 <->
     forall row, row ∈ positions -> on_ladder row = false).
Proof.
  eexists. split; [apply aggregateByExpiryBucket_entries |].
  assert (Hcount : ladder_totalCount (map (ladder_entry positions) buckets)
                   = length (List.filter on_ladder positions)).
  { unfold ladder_totalCount, buckets. simpl. rewrite <- ladder_counts. lia. }
  split; [| split; [done |]].
  - unfold ladder_totalMV, buckets. simpl. rewrite <- ladder_mv_split. ring.
  - rewrite Hcount. split.
    + intros Hnone row Hrow. apply not_true_is_false. intros Hon.
      assert (In row (List.filter on_ladder positions)) as Hin
        by (apply filter_In; split; [by apply list_elem_of_In | done]).
      destruct (List.filter on_ladder positions); [done | discriminate].
    + intros Hoff. destruct (List.filter on_ladder positions) as [|row rows] eqn:Hf;
        [done |].
      assert (In row (List.filter on_ladder positions)) as Hin
        by (rewrite Hf; by left).
      apply filter_In in Hin as [Hin Hon].
      apply list_elem_of_In in Hin. by rewrite (Hoff row Hin) in Hon.
Qed.

End LadderTotals.

(** ** The cells of the table and the spreads *)

Section SpreadFacts.

Import JsNumber.

(** A leg with a key of its own has an aggregate, which holds the sums over
    the legs of its spread. *)
Lemma spreadAggregates_of_leg (data : list AggRow) (row : AggRow) (id : string) :
  row ∈ data -> participates row = true -> spread_id row = Some id ->
  JsObject.inherited id = false ->
  exists agg,
    spreadAggregates data !! id = Some agg /\
    (SpreadAggregate.mv_total agg == total_of mv_ssc_usd (legs_of id data))%Q /\
    (SpreadAggregate.pnl_mtd_total agg
     == total_of pnl_mtd_usd (legs_of id data))%Q.
Proof.
  intros Hin Hpart Hid Hkey. rewrite spreadAggregates_lookup, Hkey.
  assert (In row (legs_of id data)) as Hleg.
  { apply filter_In. split; [by apply list_elem_of_In |].
    rewrite Hpart. simpl. by apply bool_decide_eq_true. }
  destruct (legs_of id data) as [|first rest]; [done |].
  destruct (absorb_first first rest) as (b & Hb & _ & Hmv & _ & Hmtd).
  by exists b.
Qed.

(** Both formatters of a cell render a figure that is no number as a
    dash. *)
Lemma show_value_dash (toLocaleString toFixed : Q -> nat -> string)
    (showBasisPoints : bool) (portfolioTotalMV : Q) :
  show_value toLocaleString toFixed showBasisPoints portfolioTotalMV None = "-".
Proof. unfold show_value. by destruct (_ && _). Qed.

Variable toLocaleString : Q -> nat -> string.
Variable toFixed : Q -> nat -> string.

(** X8.  On the rows the aggregates were computed from, the cells of the
    market-value and the month-to-date columns never read a field of
    [undefined]: both are always rendered.  A row outside any spread shows
    its own figure alone.  A spread leg whose [spread_id] is a key of its
    own shows its own figure above the one of an aggregate that exists and
    whose totals are those of the legs of the row's spread.  A spread leg
    whose [spread_id] names a member of [Object.prototype] shows its own
    figure above a dash, the lower line uncoloured. *)
Theorem spread_cells_defined (data : list AggRow) (showBasisPoints : bool)
    (portfolioTotalMV : Q) (row : AggRow) :
  row ∈ data ->
  let show := show_value toLocaleString toFixed showBasisPoints portfolioTotalMV in
  let mv := mvCell toLocaleString toFixed (spreadAggregates data)
              showBasisPoints portfolioTotalMV row in
  let mtd := pnlMtdCell toLocaleString toFixed (spreadAggregates data)
               showBasisPoints portfolioTotalMV row in
  is_Some mv /\ is_Some mtd /\
  (participates row = false ->
   mv = Some (Plain "" (show (mv_ssc_usd row))) /\
   mtd = Some (Plain (getPnLColorClass (pnl_mtd_usd row))
                     (show (pnl_mtd_usd row)))) /\
  (consolidated row = true ->
   exists id agg,
     spread_id row = Some id /\
     spreadAggregates data !! id = Some agg /\
     mv = Some (Stacked "text-xs text-gray-500" (show (mv_ssc_usd row))
                        "font-bold" (show (Some (SpreadAggregate.mv_total agg)))) /\
     mtd = Some (Stacked
                   ("text-xs " +:+ getPnLColorClass (pnl_mtd_usd row))
                   (show (pnl_mtd_usd row))
                   ("font-bold "
                    +:+ getPnLColorClass (Some (SpreadAggregate.pnl_mtd_total agg)))
                   (show (Some (SpreadAggregate.pnl_mtd_total agg)))) /\
     (SpreadAggregate.mv_total agg == total_of mv_ssc_usd (legs_of id data))%Q /\
     (SpreadAggregate.pnl_mtd_total agg
      == total_of pnl_mtd_usd (legs_of id data))%Q) /\
  (participates row = true -> shadowed row = true ->
   mv = Some (Stacked "text-xs text-gray-500" (show (mv_ssc_usd row))
                      "font-bold" "-") /\
   mtd = Some (Stacked ("text-xs " +:+ getPnLColorClass (pnl_mtd_usd row))
                       (show (pnl_mtd_usd row)) "font-bold " "-")).
Proof using Type.
  intros Hin show mv mtd. subst show mv mtd. unfold mvCell, pnlMtdCell.
  unfold consolidated, shadowed, participates, JsString.truthy_opt.
  destruct (spread_id row) as [id|] eqn:Hid; simpl; [| by eauto 10].
  rewrite (andb_comm (default false (is_spread_leg row))).
  destruct (JsString.truthy id && default false (is_spread_leg row)) eqn:Hg;
    simpl; [| by eauto 10].
  unfold JsObject.get.
  destruct (JsObject.inherited id) eqn:Hkey; simpl.
  - rewrite spreadAggregates_lookup, Hkey. simpl.
    rewrite !show_value_dash.
    split; [by eauto |]. split; [by eauto |]. by repeat split.
  - destruct (spreadAggregates_of_leg data row id Hin)
      as (agg & Hagg & Hmv & Hmtd); [| done | done |].
    { unfold participates, JsString.truthy_opt. by rewrite Hid. }
    rewrite Hagg. simpl. split; [by eauto |]. split; [by eauto |].
    split; [done |]. split; [| done]. intros _. by exists id, agg.
Qed.

End SpreadFacts.

Lemma spread_cells_defined_witness :
  let data := [leg "S1" None 100; leg "toString" None 5; leg "S1" None (-40)] in
  let row := leg "S1" None 100 in
  let show := show_value RefNumber.toFixed RefNumber.toFixed false 0 in
  let mv := mvCell RefNumber.toFixed RefNumber.toFixed (spreadAggregates data)
              false 0 row in
  let mtd := pnlMtdCell RefNumber.toFixed RefNumber.toFixed (spreadAggregates data)
               false 0 row in
  is_Some mv /\ is_Some mtd /\
  (participates row = false ->
   mv = Some (Plain "" (show (mv_ssc_usd row))) /\
   mtd = Some (Plain (getPnLColorClass (pnl_mtd_usd row))
                     (show (pnl_mtd_usd row)))) /\
  (consolidated row = true ->
   exists id agg,
     spread_id row = Some id /\
     spreadAggregates data !! id = Some agg /\
     mv = Some (Stacked "text-xs text-gray-500" (show (mv_ssc_usd row))
                        "font-bold" (show (Some (SpreadAggregate.mv_total agg)))) /\
     mtd = Some (Stacked
                   ("text-xs " +:+ getPnLColorClass (pnl_mtd_usd row))
                   (show (pnl_mtd_usd row))
                   ("font-bold "
                    +:+ getPnLColorClass (Some (SpreadAggregate.pnl_mtd_total agg)))
                   (show (Some (SpreadAggregate.pnl_mtd_total agg)))) /\
     (SpreadAggregate.mv_total agg == total_of mv_ssc_usd (legs_of id data))%Q /\
     (SpreadAggregate.pnl_mtd_total agg
      == total_of pnl_mtd_usd (legs_of id data))%Q) /\
  (participates row = true -> shadowed row = true ->
   mv = Some (Stacked "text-xs text-gray-500" (show (mv_ssc_usd row))
                      "font-bold" "-") /\
   mtd = Some (Stacked ("text-xs " +:+ getPnLColorClass (pnl_mtd_usd row))
                       (show (pnl_mtd_usd row)) "font-bold " "-")).
Proof.
  apply (spread_cells_defined RefNumber.toFixed RefNumber.toFixed
           [leg "S1" None 100; leg "toString" None 5; leg "S1" None (-40)]
           false 0 (leg "S1" None 100)).
  apply list_elem_of_here.
Defined.

(** A leg of the spread "toString" among the legs of "S1": its cells show
    the leg's own figure above a dash, and the aggregate of "S1" is not
    touched. *)
Example cells_of_inherited_id :
  let data := [leg "S1" None 100; leg "toString" None 5; leg "S1" None (-40)] in
  mvCell RefNumber.toFixed RefNumber.toFixed (spreadAggregates data) false 0
         (leg "toString" None 5)
  = Some (Stacked "text-xs text-gray-500" "5.00" "font-bold" "-") /\
  mvCell RefNumber.toFixed RefNumber.toFixed (spreadAggregates data) false 0
         (leg "S1" None 100)
  = Some (Stacked "text-xs text-gray-500" "100.00" "font-bold" "60.00") /\
  spreadAggregates data !! "toString" = None /\
  prototype_writes data = ["toString"].
Proof. by vm_compute. Qed.

Section SpreadOrder.

Import JsNumber.

Lemma filter_perm {A} (f : A -> bool) (l k : list A) :
  l ≡ₚ k -> List.filter f l ≡ₚ List.filter f k.
Proof.
  induction 1 as [| x l k _ IH | x y l | l k j _ IH1 _ IH2]; simpl.
  - done.
  - destruct (f x); [by constructor | done].
  - destruct (f x), (f y); try done. apply Permutation_swap.
  - by etrans.
Qed.

Lemma total_of_perm (metric : AggRow -> option Q) (l k : list AggRow) :
  l ≡ₚ k -> (total_of metric l == total_of metric k)%Q.
Proof. intros Hperm. unfold total_of. apply sum_perm. by apply Permutation_map. Qed.

(** The aggregate of a key of its own: it exists when the spread has a leg,
    and holds the sums over the legs. *)
Lemma spread_totals_over_legs (data : list AggRow) (id : string) :
  JsObject.inherited id = false ->
  match spreadAggregates data !! id with
  | Some agg =>
      legs_of id data <> [] /\
      (SpreadAggregate.mv_total agg == total_of mv_ssc_usd (legs_of id data))%Q /\
      (SpreadAggregate.pnl_1d_total agg
       == total_of pnl_1d_usd (legs_of id data))%Q /\
      (SpreadAggregate.pnl_mtd_total agg
       == total_of pnl_mtd_usd (legs_of id data))%Q
  | None => legs_of id data = []
  end.
Proof.
  intros Hkey. rewrite spreadAggregates_lookup, Hkey.
  destruct (legs_of id data) as [|first rest]; [done |].
  destruct (absorb_first first rest) as (b & -> & _ & Hmv & H1d & Hmtd).
  done.
Qed.

(** A [spread_id] that names a member of [Object.prototype] has no
    aggregate. *)
Lemma spreadAggregates_inherited (data : list AggRow) (id : string) :
  JsObject.inherited id = true -> spreadAggregates data !! id = None.
Proof. intros Hkey. by rewrite spreadAggregates_lookup, Hkey. Qed.

(** X9.  The totals of a spread do not depend on the order of the rows:
    for two lists with the same rows in any order, a spread has an aggregate
    in both or in neither, and the three totals agree.  (Its name may
    differ: it is the one of the first leg.) *)
Theorem spreadAggregates_order_independent (data data' : list AggRow)
    (id : string) :
  data ≡ₚ data' ->
  match spreadAggregates data !! id, spreadAggregates data' !! id with
  | Some a, Some b =>
      (SpreadAggregate.mv_total a == SpreadAggregate.mv_total b)%Q /\
      (SpreadAggregate.pnl_1d_total a == SpreadAggregate.pnl_1d_total b)%Q /\
      (SpreadAggregate.pnl_mtd_total a == SpreadAggregate.pnl_mtd_total b)%Q
  | None, None => True
  | _, _ => False
  end.
Proof.
  intros Hperm.
  destruct (JsObject.inherited id) eqn:Hkey.
  { by rewrite !spreadAggregates_inherited. }
  assert (Hlegs : legs_of id data ≡ₚ legs_of id data') by by apply filter_perm.
  pose proof (spread_totals_over_legs data id Hkey) as Ha.
  pose proof (spread_totals_over_legs data' id Hkey) as Hb.
  destruct (spreadAggregates data !! id) as [a|],
           (spreadAggregates data' !! id) as [b|].
  - destruct Ha as (_ & Ha1 & Ha2 & Ha3), Hb as (_ & Hb1 & Hb2 & Hb3).
    rewrite Ha1, Ha2, Ha3, Hb1, Hb2, Hb3.
    by rewrite !(total_of_perm _ _ _ Hlegs).
  - destruct Ha as [Ha _]. rewrite Hb in Hlegs.
    by apply Permutation_nil_r in Hlegs.
  - destruct Hb as [Hb _]. rewrite Ha in Hlegs.
    by apply Permutation_nil in Hlegs.
  - done.
Qed.

Lemma spreadAggregates_order_independent_witness :
  match spreadAggregates [leg "S1" (Some "A") 100; leg "S1" (Some "B") (-40)] !! "S1",
        spreadAggregates [leg "S1" (Some "B") (-40); leg "S1" (Some "A") 100] !! "S1"
  with
  | Some a, Some b =>
      (SpreadAggregate.mv_total a == SpreadAggregate.mv_total b)%Q /\
      (SpreadAggregate.pnl_1d_total a == SpreadAggregate.pnl_1d_total b)%Q /\
      (SpreadAggregate.pnl_mtd_total a == SpreadAggregate.pnl_mtd_total b)%Q
  | None, None => True
  | _, _ => False
  end.
Proof.
  apply (spreadAggregates_order_independent
           [leg "S1" (Some "A") 100; leg "S1" (Some "B") (-40)]
           [leg "S1" (Some "B") (-40); leg "S1" (Some "A") 100] "S1").
  apply Permutation_swap.
Defined.

(** X22.  The name of a consolidated spread whose [spread_id] is a key of
    its own is the one given by the first participating row of that spread
    in input order: the row's own [spread_name] when it is present and
    non-empty, the constant "Spread" otherwise.  Names carried by later legs
    play no part. *)
Theorem spreadAggregates_name_first_seen (data : list AggRow) (id : string) :
  JsObject.inherited id = false ->
  SpreadAggregate.spread_name <$> spreadAggregates data !! id
  = name_given_by <$> head (legs_of id data)
  /\ SpreadAggregate.spread_name
       <$> spreadAggregates
             [leg "S1" (Some "Collar") 100; leg "S2" (Some "Fly") 1;
              leg "S1" (Some "Risk reversal") (-40)] !! "S1"
     = Some "Collar"
  /\ SpreadAggregate.spread_name
       <$> spreadAggregates
             [leg "S1" (Some "") 100; leg "S1" (Some "Risk reversal") (-40)]
           !! "S1"
     = Some "Spread"
  /\ SpreadAggregate.spread_name
       <$> spreadAggregates
             [leg "S1" None 100; leg "S1" (Some "Risk reversal") (-40)]
           !! "S1"
     = Some "Spread".
Proof.
  intros Hkey. split; [| by vm_compute].
  rewrite spreadAggregates_lookup, Hkey.
  destruct (legs_of id data) as [|first rest]; [done |].
  destruct (absorb_first first rest) as (b & -> & Hname & _).
  simpl. by rewrite Hname.
Qed.

Lemma spreadAggregates_name_first_seen_witness :
  let data := [leg "S2" (Some "Fly") 1; leg "S1" (Some "Collar") 100;
               leg "S1" (Some "Risk reversal") (-40)] in
  SpreadAggregate.spread_name <$> spreadAggregates data !! "S1"
  = name_given_by <$> head (legs_of "S1" data)
  /\ SpreadAggregate.spread_name
       <$> spreadAggregates
             [leg "S1" (Some "Collar") 100; leg "S2" (Some "Fly") 1;
              leg "S1" (Some "Risk reversal") (-40)] !! "S1"
     = Some "Collar"
  /\ SpreadAggregate.spread_name
       <$> spreadAggregates
             [leg "S1" (Some "") 100; leg "S1" (Some "Risk reversal") (-40)]
           !! "S1"
     = Some "Spread"
  /\ SpreadAggregate.spread_name
       <$> spreadAggregates
             [leg "S1" None 100; leg "S1" (Some "Risk reversal") (-40)]
           !! "S1"
     = Some "Spread".
Proof.
  apply (spreadAggregates_name_first_seen
           [leg "S2" (Some "Fly") 1; leg "S1" (Some "Collar") 100;
            leg "S1" (Some "Risk reversal") (-40)] "S1").
  reflexivity.
Defined.

(** *** All spreads together *)

Lemma all_spreads_mv_insert (m : gmap string SpreadAggregate.t) (id : string)
    (a : SpreadAggregate.t) :
  m !! id = None ->
  (all_spreads_mv (<[id := a]> m) == SpreadAggregate.mv_total a + all_spreads_mv m)%Q.
Proof.
  intros Hfresh. unfold all_spreads_mv.
  rewrite (sum_perm _ _ (Permutation_map _ (map_to_list_insert m id a Hfresh))).
  simpl map. by rewrite sum_cons.
Qed.

Lemma all_spreads_mv_replace (m : gmap string SpreadAggregate.t) (id : string)
    (a b : SpreadAggregate.t) :
  m !! id = Some a ->
  (all_spreads_mv (<[id := b]> m)
   == all_spreads_mv m - SpreadAggregate.mv_total a + SpreadAggregate.mv_total b)%Q.
Proof.
  intros Hold.
  rewrite <- (insert_delete_eq m id b).
  rewrite all_spreads_mv_insert by apply lookup_delete_eq.
  rewrite <- (insert_id m id a Hold) at 2.
  rewrite <- (insert_delete_eq m id a).
  rewrite (all_spreads_mv_insert (delete id m) id a) by apply lookup_delete_eq.
  ring.
Qed.

(** No member of [Object.prototype] ever becomes an own property. *)
Lemma spread_step_keeps_prototype (s : Aggregates.t) (row : AggRow) :
  (forall k, JsObject.inherited k = true -> Aggregates.own s !! k = None) ->
  forall k, JsObject.inherited k = true ->
            Aggregates.own (spread_step s row) !! k = None.
Proof.
  intros Hinv k Hk. rewrite spread_step_lookup by auto.
  rewrite Hk, andb_false_r. auto.
Qed.

(** One step of the loop adds the row's market value to the grand total of
    the spreads, if the row is consolidated, and leaves it alone
    otherwise. *)
Lemma spread_step_all_mv (s : Aggregates.t) (row : AggRow) :
  (forall k, JsObject.inherited k = true -> Aggregates.own s !! k = None) ->
  (all_spreads_mv (Aggregates.own (spread_step s row))
   == all_spreads_mv (Aggregates.own s)
      + (if consolidated row then default 0 (mv_ssc_usd row) else 0))%Q.
Proof.
  intros Hinv. set (m := Aggregates.own s).
  destruct (consolidated row) eqn:Hcons.
  - unfold consolidated, shadowed in Hcons.
    apply andb_true_iff in Hcons as [Hpart Hkey].
    apply participates_true in Hpart as (id & Hid & Hne & Hleg).
    rewrite Hid in Hkey. apply negb_true_iff in Hkey.
    assert (Aggregates.own (spread_step s row)
            = <[id := default
                        {| SpreadAggregate.mv_total := 0;
                           SpreadAggregate.pnl_1d_total := 0;
                           SpreadAggregate.pnl_mtd_total := 0;
                           SpreadAggregate.spread_name := "" |}
                        (absorb row (m !! id))]> m) as ->.
    { apply map_eq. intros k. rewrite spread_step_lookup by auto.
      unfold participates, JsString.truthy_opt. rewrite Hid, Hleg.
      apply truthy_true in Hne. rewrite Hne. simpl.
      destruct (decide (id = k)) as [<- | Hk].
      - rewrite bool_decide_eq_true_2 by done. rewrite Hkey. simpl.
        by rewrite lookup_insert_eq.
      - rewrite bool_decide_eq_false_2 by congruence.
        by rewrite lookup_insert_ne. }
    destruct (m !! id) as [a|] eqn:Ha.
    + rewrite (all_spreads_mv_replace m id a) by done. simpl.
      rewrite or_zero_default. ring.
    + rewrite all_spreads_mv_insert by done. simpl.
      rewrite or_zero_default. ring.
  - assert (Aggregates.own (spread_step s row) = m) as ->; [| ring].
    apply map_eq. intros k. rewrite spread_step_lookup by auto.
    unfold consolidated, shadowed in Hcons.
    destruct (participates row) eqn:Hpart; [| done]. simpl in *.
    case_bool_decide as Hk; [| done]. rewrite Hk in Hcons. simpl.
    by rewrite Hcons.
Qed.

(** X10.  The spreads partition the consolidated legs: the market-value
    totals of all the aggregates add up to the market value of all the rows
    that take part in a spread whose [spread_id] is a key of its own, an
    undefined market value counting as 0.  The legs whose [spread_id] names
    a member of [Object.prototype] are in no total. *)
Theorem spreadAggregates_partition (data : list AggRow) :
  (all_spreads_mv (spreadAggregates data)
   == total_of mv_ssc_usd (spread_legs data))%Q.
Proof.
  unfold spreadAggregates, spread_loop, spread_legs.
  assert (Hloop : forall rows,
    (forall k, JsObject.inherited k = true ->
               Aggregates.own (foldl spread_step Aggregates.empty rows) !! k = None)
    /\ (all_spreads_mv (Aggregates.own (foldl spread_step Aggregates.empty rows))
        == total_of mv_ssc_usd (List.filter consolidated rows))%Q).
  { induction rows as [|row rows [IHinv IH]] using rev_ind.
    - split; [intros k _; apply lookup_empty | reflexivity].
    - rewrite foldl_snoc. split; [by apply spread_step_keeps_prototype |].
      rewrite spread_step_all_mv by done. rewrite IH, List.filter_app.
      unfold total_of. rewrite map_app, sum_app. simpl List.filter.
      destruct (consolidated row); simpl map.
      + rewrite sum_cons. unfold sum at 3. simpl. ring.
      + unfold sum at 3. simpl. ring. }
  apply Hloop.
Qed.

(** Three legs, one of them of the spread "valueOf": the aggregates hold
    the 60 of the two legs of "S1", not the 65 of all the legs. *)
Example partition_with_inherited_id :
  let data := [leg "S1" None 100; leg "valueOf" None 5; leg "S1" None (-40)] in
  Qred (all_spreads_mv (spreadAggregates data)) = 60%Q /\
  Qred (total_of mv_ssc_usd (List.filter participates data)) = 65%Q /\
  spread_legs data = [leg "S1" None 100; leg "S1" None (-40)].
Proof. by vm_compute. Qed.

End SpreadOrder.

(** ** The formatters *)

Section FormatFacts.

Lemma length_append (a b : string) :
  String.length (a +:+ b) = String.length a + String.length b.
Proof.
  induction a as [|x a IH]; [done |].
  rewrite append_cons. simpl. by rewrite IH.
Qed.

Lemma length_substring_to (text : string) (n : nat) :
  String.length (substring 0 n text) = Nat.min n (String.length text).
Proof.
  revert n. induction text as [|c text IH]; intros [|n]; simpl; try done.
  by rewrite IH.
Qed.

Lemma substring_to_prefix (text : string) (n : nat) :
  exists rest, text = substring 0 n text +:+ rest.
Proof.
  revert n. induction text as [|c text IH]; intros [|n]; simpl.
  - by exists "".
  - by exists "".
  - by exists (String c text).
  - destruct (IH n) as [rest Hrest]. exists rest.
    rewrite append_cons. by rewrite <- Hrest.
Qed.

(** X11.  With room for the ellipsis (a maximal length of at least 3),
    [truncate] never returns more than the maximal length: an absent or
    empty text gives "-", a text that fits is returned as it is, and a
    longer one is cut to its first [maxLen - 3] characters followed by
    "...", which makes exactly [maxLen] characters. *)
Theorem truncate_fits (text : option string) (maxLen : Z) :
  (3 <= maxLen)%Z ->
  (Z.of_nat (String.length (truncate text (Some maxLen))) <= maxLen)%Z /\
  (forall s, text = Some s -> s <> "" ->
     (Z.of_nat (String.length s) <= maxLen)%Z ->
     truncate text (Some maxLen) = s) /\
  (forall s, text = Some s ->
     (maxLen < Z.of_nat (String.length s))%Z ->
     Z.of_nat (String.length (truncate text (Some maxLen))) = maxLen /\
     exists kept rest,
       s = kept +:+ rest /\ truncate text (Some maxLen) = kept +:+ "...") /\
  (text = None \/ text = Some "" -> truncate text (Some maxLen) = "-").
Proof.
  intros Hroom. unfold truncate, substring_to. simpl.
  split; [| split; [| split]].
  - destruct text as [s|]; simpl; [| lia].
    destruct (JsString.truthy s); simpl; [| lia].
    destruct (Z.leb_spec (Z.of_nat (String.length s)) maxLen); [done |].
    rewrite length_append, length_substring_to. simpl. lia.
  - intros s -> Hs Hfit. apply truthy_true in Hs. rewrite Hs. simpl.
    by destruct (Z.leb_spec (Z.of_nat (String.length s)) maxLen); [| lia].
  - intros s -> Hlong.
    assert (JsString.truthy s = true) as ->.
    { apply truthy_true. intros ->. simpl in Hlong. lia. }
    simpl.
    destruct (Z.leb_spec (Z.of_nat (String.length s)) maxLen); [lia |].
    split.
    + rewrite length_append, length_substring_to. simpl. lia.
    + destruct (substring_to_prefix s (Z.to_nat (maxLen - 3))) as [rest Hrest].
      by exists (substring 0 (Z.to_nat (maxLen - 3)) s), rest.
  - by intros [-> | ->].
Qed.

Lemma truncate_fits_witness :
  (Z.of_nat (String.length (truncate (Some "SPX put spread Dec") (Some 10%Z)))
   <= 10)%Z /\
  (forall s, Some "SPX put spread Dec" = Some s -> s <> "" ->
     (Z.of_nat (String.length s) <= 10)%Z ->
     truncate (Some "SPX put spread Dec") (Some 10%Z) = s) /\
  (forall s, Some "SPX put spread Dec" = Some s ->
     (10 < Z.of_nat (String.length s))%Z ->
     Z.of_nat (String.length (truncate (Some "SPX put spread Dec") (Some 10%Z)))
     = 10%Z /\
     exists kept rest,
       s = kept +:+ rest /\
       truncate (Some "SPX put spread Dec") (Some 10%Z) = kept +:+ "...") /\
  (Some "SPX put spread Dec" = None \/ Some "SPX put spread Dec" = Some "" ->
   truncate (Some "SPX put spread Dec") (Some 10%Z) = "-").
Proof.
  apply (truncate_fits (Some "SPX put spread Dec") 10). lia.
Defined.

Lemma truncate_length (text : option string) (maxLen : Z) :
  (3 <= maxLen)%Z ->
  (Z.of_nat (String.length (truncate text (Some maxLen))) <= maxLen)%Z.
Proof.
  intros Hroom. unfold truncate, substring_to. simpl.
  destruct text as [s|]; simpl; [| lia].
  destruct (JsString.truthy s); simpl; [| lia].
  destruct (Z.leb_spec (Z.of_nat (String.length s)) maxLen); [done |].
  rewrite length_append, length_substring_to. simpl. lia.
Qed.

Lemma truncate_not_empty (text : option string) (maxLen : Z) :
  truncate text (Some maxLen) <> "".
Proof.
  unfold truncate. simpl. destruct text as [s|]; [| done].
  destruct (JsString.truthy s) eqn:Hs; simpl; [| done].
  destruct (Z.leb_spec (Z.of_nat (String.length s)) maxLen).
  - by apply truthy_true in Hs.
  - intros Hempty. apply (f_equal String.length) in Hempty.
    rewrite length_append in Hempty. simpl in Hempty. lia.
Qed.

(** X12.  Truncating twice is truncating once, when there is room for the
    ellipsis. *)
Theorem truncate_idempotent (text : option string) (maxLen : Z) :
  (3 <= maxLen)%Z ->
  truncate (Some (truncate text (Some maxLen))) (Some maxLen)
  = truncate text (Some maxLen).
Proof.
  intros Hroom.
  pose proof (truncate_length text maxLen Hroom) as Hlen.
  pose proof (truncate_not_empty text maxLen) as Hne.
  set (t := truncate text (Some maxLen)) in *.
  unfold truncate at 1. simpl.
  apply truthy_true in Hne. rewrite Hne. simpl.
  by destruct (Z.leb_spec (Z.of_nat (String.length t)) maxLen); [| lia].
Qed.

Lemma truncate_idempotent_witness :
  truncate (Some (truncate (Some "SPX put spread Dec") (Some 10%Z))) (Some 10%Z)
  = truncate (Some "SPX put spread Dec") (Some 10%Z).
Proof. apply truncate_idempotent. lia. Defined.

Lemma gt_true (a b : Q) : JsNumber.gt a b = true <-> (b < a)%Q.
Proof.
  unfold JsNumber.gt. rewrite Qgt_alt. by destruct (a ?= b)%Q.
Qed.

Lemma gt_false (a b : Q) : (a <= b)%Q -> JsNumber.gt a b = false.
Proof.
  intros Hle. apply not_true_is_false. rewrite gt_true. lra.
Qed.

(** X13.  The two colour classes agree on every value but zero: an absent
    value has no class, a negative one is red and a positive one green for
    both, and zero is green as a DV01 and has no class as a PnL. *)
Theorem color_classes_differ_at_zero (value : option Q) :
  (getDV01ColorClass value = getPnLColorClass value <->
   value = None \/ exists x, value = Some x /\ ~ (x == 0)%Q) /\
  (value = None ->
   getDV01ColorClass value = "" /\ getPnLColorClass value = "") /\
  (forall x, value = Some x -> (x < 0)%Q ->
     getDV01ColorClass value = "text-red-600" /\
     getPnLColorClass value = "text-red-600") /\
  (forall x, value = Some x -> (0 < x)%Q ->
     getDV01ColorClass value = "text-green-600" /\
     getPnLColorClass value = "text-green-600") /\
  (forall x, value = Some x -> (x == 0)%Q ->
     getDV01ColorClass value = "text-green-600" /\ getPnLColorClass value = "").
Proof.
  unfold getDV01ColorClass, getPnLColorClass.
  destruct value as [x|]; simpl;
    [| split_and!; [split |..]; first [done | by (intros; left)]].
  destruct (Q_dec x 0) as [[Hlt | Hgt] | Heq].
  - rewrite (proj2 (gt_true 0 x) Hlt), (gt_false x 0) by lra.
    split_and!; [split |..]; try done.
    + intros _. right. exists x. split; [done | lra].
    + intros y [= <-] ?. lra.
    + intros y [= <-] ?. lra.
  - rewrite (proj2 (gt_true x 0) Hgt), (gt_false 0 x) by lra.
    split_and!; [split |..]; try done.
    + intros _. right. exists x. split; [done | lra].
    + intros y [= <-] ?. lra.
    + intros y [= <-] ?. lra.
  - rewrite (gt_false x 0), (gt_false 0 x) by lra.
    split_and!; [split |..]; try done.
    + intros [? | (y & [= <-] & Hy)]; [done | by destruct Hy].
    + intros y [= <-] ?. lra.
    + intros y [= <-] ?. lra.
Qed.

(** X14.  The dash is unambiguous: whatever [toFixed] renders,
    [formatBasisPoints] returns "-" exactly when the value is absent or the
    reference total is zero, and a text ending in " bps" otherwise. *)
Theorem formatBasisPoints_dash_iff (toFixed : Q -> nat -> string)
    (value : option Q) (portfolioTotal : Q) (decimals : option nat) :
  (formatBasisPoints toFixed value portfolioTotal decimals = "-" <->
   value = None \/ (portfolioTotal == 0)%Q) /\
  (formatBasisPoints toFixed value portfolioTotal decimals <> "-" ->
   exists digits,
     formatBasisPoints toFixed value portfolioTotal decimals = digits +:+ " bps").
Proof.
  unfold formatBasisPoints. destruct value as [v|]; simpl.
  - destruct (JsNumber.strict_eq portfolioTotal 0) eqn:Hzero.
    + apply strict_eq_zero in Hzero. split; [| done]. split; auto.
    + assert (~ (portfolioTotal == 0)%Q) as Hne.
      { intros Heq. apply strict_eq_zero in Heq. congruence. }
      split; [| eauto]. split.
      * intros Hdash. apply (f_equal String.length) in Hdash.
        rewrite length_append in Hdash. simpl in Hdash. lia.
      * by intros [? | ?].
  - split; [| done]. split; auto.
Qed.

End FormatFacts.

(** ** The filter and its options *)

Section Options.

Import JsString.

Lemma add_elem (set : JsSet.t) (x y : string) :
  y ∈ JsSet.add set x <-> y ∈ set \/ y = x.
Proof.
  unfold JsSet.add. case_bool_decide as Hin.
  - split; [by left |]. by intros [? | ->].
  - rewrite elem_of_app, list_elem_of_singleton. done.
Qed.

Lemma add_NoDup (set : JsSet.t) (x : string) :
  NoDup set -> NoDup (JsSet.add set x).
Proof.
  intros Hset. unfold JsSet.add. case_bool_decide as Hin; [done |].
  apply NoDup_app. split; [done |]. split; [| apply NoDup_singleton].
  by intros y Hy ->%list_elem_of_singleton.
Qed.

Lemma collect_spec (field : AggRow -> option string) (aggData : list AggRow) :
  NoDup (collect field aggData) /\
  forall x, x ∈ collect field aggData <->
            x <> "" /\ exists row, row ∈ aggData /\ field row = Some x.
Proof.
  unfold collect.
  induction aggData as [|row aggData [IHnodup IHin]] using rev_ind.
  - split; [apply NoDup_nil_2 |]. intros x. split.
    + by intros ?%elem_of_nil.
    + by intros (_ & row & ?%elem_of_nil & _).
  - rewrite foldl_snoc.
    set (set := foldl _ JsSet.empty aggData) in *.
    assert (Hrest : forall x,
      (x <> "" /\ exists r, r ∈ aggData ++ [row] /\ field r = Some x) <->
      x ∈ set \/ (x <> "" /\ field row = Some x)).
    { intros x. rewrite IHin. split.
      - intros (Hx & r & Hr & Hfield).
        apply elem_of_app in Hr as [Hr | ->%list_elem_of_singleton]; eauto.
      - intros [(Hx & r & Hr & Hfield) | (Hx & Hfield)].
        + split; [done |]. exists r. split; [set_solver | done].
        + split; [done |]. exists row. split; [set_solver | done]. }
    destruct (field row) as [y|] eqn:Hy.
    + destruct (truthy y) eqn:Hty.
      * split; [by apply add_NoDup |]. intros x.
        rewrite add_elem, Hrest. apply truthy_true in Hty. naive_solver.
      * split; [done |]. intros x. rewrite Hrest.
        apply truthy_false in Hty. naive_solver.
    + split; [done |]. intros x. rewrite Hrest. naive_solver.
Qed.

Lemma filterOptions_collect (aggData : list AggRow) :
  foldl options_step (JsSet.empty, JsSet.empty) aggData
  = (collect hedge_family aggData, collect strategy aggData).
Proof.
  unfold collect.
  induction aggData as [|row aggData IH] using rev_ind; [done |].
  by rewrite !foldl_snoc, IH.
Qed.

Lemma default_compare_gt (a b : string) :
  JsNumber.gt (default_compare a b) 0 = true <-> String.compare a b = Gt.
Proof.
  unfold default_compare. by destruct (String.compare a b).
Qed.

Lemma sort_default_sorted (l : list string) :
  StronglySorted String.le (JsArray.sort default_compare l).
Proof.
  apply sort_sorted.
  - intros x y z. apply transitivity.
  - intros x y Hgt%default_compare_gt. unfold String.le, String.leb.
    by rewrite String.compare_antisym, Hgt.
  - intros x y Hgt. unfold String.le, String.leb.
    destruct (String.compare x y) eqn:Hcmp; [done | done |].
    apply default_compare_gt in Hcmp. congruence.
Qed.

(** X15.  The options offered by the two filter menus: each list holds the
    distinct non-empty values of its field over all the rows, each once, in
    ascending order of code units.  Rows without the field, or with an empty
    one, add no option. *)
Theorem filterOptions_sorted_distinct (aggData : list AggRow) :
  (StronglySorted String.le (families aggData) /\
   NoDup (families aggData) /\
   forall f, f ∈ families aggData <->
             f <> "" /\ exists row, row ∈ aggData /\ hedge_family row = Some f) /\
  (StronglySorted String.le (strategies aggData) /\
   NoDup (strategies aggData) /\
   forall s, s ∈ strategies aggData <->
             s <> "" /\ exists row, row ∈ aggData /\ strategy row = Some s).
Proof.
  unfold families, strategies, filterOptions.
  rewrite filterOptions_collect. simpl. unfold JsSet.to_array.
  destruct (collect_spec hedge_family aggData) as [Hf1 Hf2].
  destruct (collect_spec strategy aggData) as [Hs1 Hs2].
  split; (split; [apply sort_default_sorted |]); split.
  - by rewrite sort_perm.
  - intros f. by rewrite sort_perm.
  - by rewrite sort_perm.
  - intros s. by rewrite sort_perm.
Qed.

End Options.

Section FilterFacts.

Import JsString.

Lemma filter_all {A} (f : A -> bool) (l : list A) :
  (forall x, f x = true) -> List.filter f l = l.
Proof.
  intros Hall. induction l as [|x l IH]; simpl; [done |].
  by rewrite Hall, IH.
Qed.

Lemma filter_sublist {A} (f : A -> bool) (l : list A) :
  List.filter f l `sublist_of` l.
Proof.
  induction l as [|x l IH]; simpl; [done |].
  destruct (f x); by constructor.
Qed.

Lemma filter_filter {A} (f g : A -> bool) (l : list A) :
  List.filter f (List.filter g l) = List.filter (λ x, g x && f x) l.
Proof.
  induction l as [|x l IH]; simpl; [done |].
  destruct (g x); simpl; [destruct (f x) |]; by rewrite ?IH.
Qed.

Lemma filter_ext_bool {A} (f g : A -> bool) (l : list A) :
  (forall x, f x = g x) -> List.filter f l = List.filter g l.
Proof.
  intros Hext. induction l as [|x l IH]; simpl; [done |].
  by rewrite Hext, IH.
Qed.

(** The three criteria are tested one after the other and all must pass. *)
Lemma filterRow_split (family strat query : string) (row : AggRow) :
  filterRow family strat query row
  = filterRow family "" "" row && filterRow "" strat "" row
    && filterRow "" "" query row.
Proof.
  unfold filterRow. simpl.
  destruct (truthy family && strict_ne (hedge_family row) family); [done |].
  destruct (truthy strat && strict_ne (strategy row) strat); [done |].
  simpl. by destruct (truthy query).
Qed.

(** X16.  The criteria of the filter combine as a conjunction.  With no
    family, no strategy and no query every row passes (after "Clear Filters"
    the table shows all the positions); filtering by all three at once is
    filtering by the family, then by the strategy, then by the query; two
    filters can be applied in either order; and the rows shown are always
    rows of the table in their original order, so that "Showing N of M
    positions" has N at most M. *)
Theorem filteredData_conjunctive (aggData : list AggRow)
    (family strat query family' strat' query' : string) :
  filteredData aggData "" "" "" = aggData /\
  filteredData aggData family strat query
  = filteredData (filteredData (filteredData aggData family "" "") "" strat "")
                 "" "" query /\
  filteredData (filteredData aggData family strat query) family' strat' query'
  = filteredData (filteredData aggData family' strat' query') family strat query /\
  filteredData aggData family strat query `sublist_of` aggData /\
  length (filteredData aggData family strat query) <= length aggData.
Proof.
  assert (filteredData aggData family strat query `sublist_of` aggData) as Hsub
    by apply filter_sublist.
  split; [by apply filter_all |].
  unfold filteredData in *. rewrite !filter_filter.
  split; [| split; [| split; [done | by apply sublist_length]]].
  - apply filter_ext_bool. intros row.
    rewrite (filterRow_split family strat query). symmetry. apply andb_assoc.
  - apply filter_ext_bool. intros row. apply andb_comm.
Qed.

Lemma filterRow_family_only (family : string) (row : AggRow) :
  family <> "" ->
  (filterRow family "" "" row = true <-> hedge_family row = Some family).
Proof.
  intros Hf. apply truthy_true in Hf. unfold filterRow. rewrite Hf. simpl.
  destruct (hedge_family row) as [f|]; simpl; [| done].
  destruct (String.eqb_spec f family) as [-> | Hne]; simpl; [done |].
  split; [done | congruence].
Qed.

(** X17.  The family menu offers exactly the families that select
    something: a text is among the options if and only if it is not empty
    and filtering by it alone leaves at least one row. *)
Theorem families_select_rows (aggData : list AggRow) (family : string) :
  family ∈ families aggData <->
  family <> "" /\ filteredData aggData family "" "" <> [].
Proof.
  unfold families, filterOptions. rewrite filterOptions_collect. simpl.
  unfold JsSet.to_array. rewrite sort_perm.
  destruct (collect_spec hedge_family aggData) as [_ ->].
  unfold filteredData. split.
  - intros (Hf & row & Hrow & Hfam). split; [done |].
    assert (In row (List.filter (filterRow family "" "") aggData)) as Hin.
    { apply filter_In. split; [by apply list_elem_of_In |].
      by apply filterRow_family_only. }
    intros Hempty. by rewrite Hempty in Hin.
  - intros (Hf & Hsome). split; [done |].
    destruct (List.filter (filterRow family "" "") aggData) as [|row rows] eqn:Hfl;
      [done |].
    assert (In row (List.filter (filterRow family "" "") aggData)) as Hin
      by (rewrite Hfl; by left).
    apply filter_In in Hin as [Hin Hrow].
    exists row. split; [by apply list_elem_of_In |].
    by apply filterRow_family_only.
Qed.

Lemma append_assoc (a b c : string) : (a +:+ b) +:+ c = a +:+ (b +:+ c).
Proof.
  induction a as [|x a IH]; [done |]. by rewrite !append_cons, IH.
Qed.

Lemma includes_trans (a b c : string) :
  includes a b = true -> includes b c = true -> includes a c = true.
Proof.
  rewrite !includes_spec.
  intros (pre & post & ->) (pre' & post' & ->).
  exists (pre +:+ pre'), (post' +:+ post). by rewrite !append_assoc.
Qed.

Lemma matches_narrow (field : option string) (short long : string) :
  includes_ci long short ->
  matches field (toLowerCase long) = true ->
  matches field (toLowerCase short) = true.
Proof.
  intros Hci%includes_lower_ci. destruct field as [text|]; simpl; [| done].
  intros Hlong. by eapply includes_trans.
Qed.

(** X18.  Typing more never shows more: when a query occurs, case ignored,
    inside a longer one, every row admitted under the longer query is
    admitted under the shorter one (with the same family and strategy), so
    the rows shown for the longer query are among those shown for the
    shorter. *)
Theorem filteredData_query_narrows (aggData : list AggRow)
    (family strat short long : string) :
  includes_ci long short ->
  filteredData aggData family strat long
  `sublist_of` filteredData aggData family strat short.
Proof.
  intros Hci. unfold filteredData.
  assert (Hrow : forall row,
    filterRow family strat long row = true ->
    filterRow family strat short row = true).
  { intros row. rewrite (filterRow_split _ _ long), (filterRow_split _ _ short).
    rewrite !andb_true_iff. intros [Hfs Hq]. split; [done |].
    unfold filterRow in *. simpl in *.
    destruct (truthy short) eqn:Hshort; [| done].
    destruct (truthy long) eqn:Hlong.
    - pose proof (matches_narrow (investment_description row) _ _ Hci) as Nd.
      pose proof (matches_narrow (hedge_label row) _ _ Hci) as Nl.
      pose proof (matches_narrow (investment_id row) _ _ Hci) as Ni.
      destruct (matches (investment_description row) (toLowerCase long)),
               (matches (hedge_label row) (toLowerCase long)),
               (matches (investment_id row) (toLowerCase long));
        simpl in Hq; try discriminate;
        rewrite ?(Nd eq_refl), ?(Nl eq_refl), ?(Ni eq_refl); simpl;
        by repeat destruct (matches _ _).
    - apply truthy_false in Hlong as ->.
      destruct Hci as (pre & mid & post & Hsplit & Hmid).
      destruct pre, mid; try discriminate.
      destruct short; [done | by simpl in Hmid]. }
  induction aggData as [|row aggData IH]; simpl; [done |].
  destruct (filterRow family strat long row) eqn:Hlong.
  - rewrite (Hrow row Hlong). by constructor.
  - destruct (filterRow family strat short row); [by constructor | done].
Qed.

Lemma filteredData_query_narrows_witness :
  filteredData
    [described None None (Some "SPX Digital put") None None;
     described None None (Some "Gold dig") None None]
    "" "" "digital"
  `sublist_of`
  filteredData
    [described None None (Some "SPX Digital put") None None;
     described None None (Some "Gold dig") None None]
    "" "" "DIG".
Proof.
  apply filteredData_query_narrows.
  exists "", "dig", "ital". split; [reflexivity | by vm_compute].
Defined.

End FilterFacts.

(** ** The charts under a filter *)

Section FilteredCharts.

Context `{Dayjs}.

Import JsNumber.

Lemma filter_of_sublist {A} (f : A -> bool) (l k : list A) :
  l `sublist_of` k -> List.filter f l `sublist_of` List.filter f k.
Proof.
  induction 1 as [| x l k _ IH | x l k _ IH]; simpl.
  - done.
  - destruct (f x); [by constructor | done].
  - destruct (f x); [by constructor | done].
Qed.

Lemma gross_cons (row : AggRow) (l : list AggRow) :
  (gross (row :: l)
   == match mv_ssc_usd row with Some v => Qabs v | None => 0 end + gross l)%Q.
Proof.
  unfold gross, market_values. simpl.
  destruct (mv_ssc_usd row) as [v|]; simpl.
  - by rewrite sum_cons.
  - symmetry. apply Qplus_0_l.
Qed.

Lemma gross_sublist (l k : list AggRow) :
  l `sublist_of` k -> (gross l <= gross k)%Q.
Proof.
  induction 1 as [| x l k _ IH | x l k _ IH].
  - done.
  - rewrite !gross_cons. lra.
  - rewrite gross_cons.
    assert (0 <= match mv_ssc_usd x with Some v => Qabs v | None => 0 end)%Q.
    { destruct (mv_ssc_usd x); [apply Qabs_nonneg | done]. }
    lra.
Qed.

(** X19.  Filtering never adds to a chart: the ladder of the filtered rows
    has, bucket by bucket, at most the count of the ladder of all rows, and
    the total of the pie chart of the filtered rows is at most the total of
    the pie chart of all rows. *)
Theorem filtered_charts_within (aggData : list AggRow)
    (family strat query : string) :
  let shownData := filteredData aggData family strat query in
  (exists all shown,
     aggregateByExpiryBucket aggData = Some all /\
     aggregateByExpiryBucket shownData = Some shown /\
     Forall2 (λ a s, ExpiryBucketData.bucket s = ExpiryBucketData.bucket a /\
                     ExpiryBucketData.count s <= ExpiryBucketData.count a)
             all shown) /\
  (pie_totalMV (aggregateByAssetType shownData)
   <= pie_totalMV (aggregateByAssetType aggData))%Q.
Proof.
  intros shownData.
  assert (shownData `sublist_of` aggData) as Hsub by apply filter_sublist.
  split.
  - eexists _, _. split; [apply aggregateByExpiryBucket_entries |].
    split; [apply aggregateByExpiryBucket_entries |].
    unfold buckets. simpl.
    repeat (constructor; [split; [done |]; simpl;
                          apply sublist_length; by apply filter_of_sublist |]).
    constructor.
  - rewrite !pie_totalMV_gross. by apply gross_sublist.
Qed.

End FilteredCharts.

(** ** The bars of the rollup header *)

Section RollupBars.

Lemma Math_max_bounds (x : Q) (rest : list Q) :
  (x <= Math_max x rest)%Q /\
  (forall y, y ∈ rest -> (y <= Math_max x rest)%Q) /\
  exists z, z ∈ x :: rest /\ (Math_max x rest == z)%Q.
Proof.
  unfold Math_max. revert x. induction rest as [|y rest IH]; intros x; simpl.
  - split; [lra |]. split; [by intros y ?%elem_of_nil |].
    exists x. split; [set_solver | reflexivity].
  - destruct (IH (Qmax x y)) as (Hx & Hrest & z & Hz & Hmax).
    pose proof (Q.le_max_l x y). pose proof (Q.le_max_r x y).
    split; [lra |]. split.
    + intros w [-> | Hw]%elem_of_cons; [lra | by apply Hrest].
    + apply elem_of_cons in Hz as [-> | Hz].
      * destruct (Q.max_dec x y) as [Heq | Heq].
        -- exists x. split; [set_solver | by rewrite Hmax].
        -- exists y. split; [set_solver | by rewrite Hmax].
      * exists z. split; [set_solver | done].
Qed.

Lemma maxAbsMV_spec (by_family : list FamilyBucket.t) :
  (1 <= maxAbsMV by_family)%Q /\
  (forall f, f ∈ by_family ->
     (Qabs (FamilyBucket.mv_ssc_usd f) <= maxAbsMV by_family)%Q) /\
  ((maxAbsMV by_family == 1)%Q \/
   exists f, f ∈ by_family /\
     (maxAbsMV by_family == Qabs (FamilyBucket.mv_ssc_usd f))%Q).
Proof.
  unfold maxAbsMV.
  destruct (map (λ f, Qabs (FamilyBucket.mv_ssc_usd f)) by_family ++ [1%Q])
    as [|x rest] eqn:Hargs.
  { by destruct (map _ by_family). }
  destruct (Math_max_bounds x rest) as (Hx & Hrest & z & Hz & Hmax).
  assert (Hall : forall y, y ∈ x :: rest -> (y <= Math_max x rest)%Q).
  { intros y [-> | Hy]%elem_of_cons; [done | by apply Hrest]. }
  rewrite <- Hargs in Hall, Hz.
  split; [apply Hall; set_solver |]. split.
  - intros f Hf. apply Hall. apply elem_of_app. left.
    apply list_elem_of_fmap. by exists f.
  - apply elem_of_app in Hz as [Hz | ->%list_elem_of_singleton]; [| by left].
    apply list_elem_of_fmap in Hz as (f & -> & Hf). right. by exists f.
Qed.

(** X20.  The bars of the rollup header stay inside their track: the scale
    is at least 1 (so the division is always defined), every bar is between
    0 and 100 per cent wide, and when some family has an absolute market
    value of at least 1 the widest bar fills the track. *)
Theorem rollup_bars_in_range (by_family : list FamilyBucket.t) :
  (1 <= maxAbsMV by_family)%Q /\
  (forall f, f ∈ by_family -> (0 <= barWidth by_family f <= 100)%Q) /\
  ((exists f, f ∈ by_family /\ (1 <= Qabs (FamilyBucket.mv_ssc_usd f))%Q) ->
   exists f, f ∈ by_family /\ (barWidth by_family f == 100)%Q).
Proof.
  destruct (maxAbsMV_spec by_family) as (Hone & Hle & Hattained).
  split; [done |]. unfold barWidth. split.
  - intros f Hf. specialize (Hle f Hf).
    pose proof (Qabs_nonneg (FamilyBucket.mv_ssc_usd f)) as Hpos.
    assert (0 < maxAbsMV by_family)%Q as Hscale by lra.
    split.
    + apply Qmult_le_0_compat; [| done].
      apply Qle_shift_div_l; [done |]. lra.
    + assert (Qabs (FamilyBucket.mv_ssc_usd f) / maxAbsMV by_family <= 1)%Q.
      { apply Qle_shift_div_r; [done |]. lra. }
      lra.
  - intros (g & Hg & Hbig).
    assert (exists f, f ∈ by_family /\
              (maxAbsMV by_family == Qabs (FamilyBucket.mv_ssc_usd f))%Q)
      as (f & Hf & Heq).
    { destruct Hattained as [Hmax | ?]; [| done].
      exists g. split; [done |]. specialize (Hle g Hg). lra. }
    exists f. split; [done |]. rewrite <- Heq. field. lra.
Qed.

End RollupBars.

(** ** The spreads under a filter *)

Section FilteredSpreads.

Lemma legs_of_filtered (id : string) (aggData : list AggRow)
    (family strat query : string) :
  legs_of id (filteredData aggData family strat query)
  = List.filter (filterRow family strat query) (legs_of id aggData).
Proof.
  unfold legs_of, filteredData. rewrite !filter_filter.
  apply filter_ext_bool. intros row. apply andb_comm.
Qed.

(** X21.  The table consolidates what it shows: the aggregates it computes
    from the filtered rows cover, for each spread, only the legs that pass
    the filter.  A spread none of whose legs passes has no aggregate, nor
    has one whose [spread_id] names a member of [Object.prototype]; the
    totals of any other are the sums over its visible legs, whatever the
    hidden legs are worth. *)
Theorem spreadAggregates_of_filtered (aggData : list AggRow)
    (family strat query id : string) :
  let visible :=
    List.filter (filterRow family strat query) (legs_of id aggData) in
  match spreadAggregates (filteredData aggData family strat query) !! id with
  | Some agg =>
      JsObject.inherited id = false /\
      visible <> [] /\
      (SpreadAggregate.mv_total agg == total_of mv_ssc_usd visible)%Q /\
      (SpreadAggregate.pnl_1d_total agg == total_of pnl_1d_usd visible)%Q /\
      (SpreadAggregate.pnl_mtd_total agg == total_of pnl_mtd_usd visible)%Q
  | None => JsObject.inherited id = true \/ visible = []
  end.
Proof.
  intros visible. subst visible. rewrite <- legs_of_filtered.
  destruct (JsObject.inherited id) eqn:Hkey.
  - rewrite spreadAggregates_inherited by done. by left.
  - pose proof (spread_totals_over_legs
                  (filteredData aggData family strat query) id Hkey) as Htot.
    destruct (spreadAggregates _ !! id); [done | by right].
Qed.

End FilteredSpreads.
